(** * ainutrihealth: the label-to-score pipeline of [app/backend]

    A shallow embedding of [app/backend/app.py] (the [/predict] handler) and
    of [app/backend/test_ocr.py] (the best-of-N OCR experiment), with the
    properties the specification states about them.

    Conventions.
    - A Python [str] is a Rocq [string]; a character is a code point below
      256.  On that range [str.lower] and [str.strip] are the functions
      [lower] and [strip] below, and lower-casing keeps the length.
    - [str.find] returns [-1] when nothing is found, as in Python; slices
      take a [Z] index with Python's rule for negative indices.
    - A Python [float] is an IEEE 754 binary64 number, a [spec_float] of
      the standard library at precision 53 and maximal exponent 1024: the
      sum, the difference, the product and the quotient are rounded to
      nearest, ties to even, and overflow to an infinity.  [sum] adds from
      left to right, as CPython does up to version 3.11.
    - The angle [cv2.minAreaRect] reports is the one number kept as a
      rational ([pyfloat]): the code adds 90 to it only when it is below
      -45, and for an angle from -90 to -45 that sum is exact in binary64.
    - A call that can raise returns a [result]; [Raise e] carries [str(e)].
    - The libraries the code calls (OpenCV, Pillow, Tesseract) are
      collaborators: records of functions the pipeline is parametrised by. *)

From Stdlib Require Import Ascii QArith Qcanon DecimalString Lqa SpecFloat.
From stdpp Require Import gmap strings list sorting.

Open Scope string_scope.
Open Scope Z_scope.

(** ** Python strings *)

Module PyStr.

(** [str.lower] on one code point: A-Z and the Latin-1 capitals. *)
Definition lower_char (c : ascii) : ascii :=
  let n := N_of_ascii c in
  if ((65 <=? n) && (n <=? 90) || (192 <=? n) && (n <=? 214)
      || (216 <=? n) && (n <=? 222))%N
  then ascii_of_N (n + 32) else c.

Fixpoint lower (s : string) : string :=
  match s with
  | "" => ""
  | String c s' => String (lower_char c) (lower s')
  end.

(** [str.isspace] on one code point. *)
Definition is_space (c : ascii) : bool :=
  let n := N_of_ascii c in
  ((9 <=? n) && (n <=? 13) || (28 <=? n) && (n <=? 32)
   || (n =? 133) || (n =? 160))%N.

Fixpoint lstrip (s : string) : string :=
  match s with
  | "" => ""
  | String c s' => if is_space c then lstrip s' else s
  end.

Fixpoint rstrip (s : string) : string :=
  match s with
  | "" => ""
  | String c s' =>
      match rstrip s' with
      | "" => if is_space c then "" else String c ""
      | r => String c r
      end
  end.

(** [s.strip()] *)
Definition strip (s : string) : string := rstrip (lstrip s).

(** [s.startswith(p)] *)
Fixpoint startswith (p s : string) : bool :=
  match p, s with
  | "", _ => true
  | String a p', String b s' => if decide (a = b) then startswith p' s' else false
  | String _ _, "" => false
  end.

(** The lowest index at which [sub] occurs in [s]. *)
Fixpoint find_nat (sub s : string) : option nat :=
  if startswith sub s then Some 0%nat
  else match s with
       | "" => None
       | String _ s' => S <$> find_nat sub s'
       end.

(** [s.find(sub)] *)
Definition find (s sub : string) : Z :=
  match find_nat sub s with
  | Some n => Z.of_nat n
  | None => -1
  end.

(** [sub in s] *)
Definition contains (sub s : string) : bool :=
  match find_nat sub s with
  | Some _ => true
  | None => false
  end.

Fixpoint str_drop (n : nat) (s : string) : string :=
  match n, s with
  | O, _ => s
  | S n', String _ s' => str_drop n' s'
  | S _, "" => ""
  end.

Fixpoint str_take (n : nat) (s : string) : string :=
  match n, s with
  | O, _ => ""
  | S n', String c s' => String c (str_take n' s')
  | S _, "" => ""
  end.

(** A slice bound: negative counts from the end, all is clipped. *)
Definition bound (len : nat) (i : Z) : nat :=
  if i <? 0 then Z.to_nat (Z.max (Z.of_nat len + i) 0)
  else Nat.min (Z.to_nat i) len.

(** [s[i:]] *)
Definition slice_from (s : string) (i : Z) : string :=
  str_drop (bound (String.length s) i) s.

(** [s[:j]] *)
Definition slice_to (s : string) (j : Z) : string :=
  str_take (bound (String.length s) j) s.

(** [bool(s)] *)
Definition truthy (s : string) : bool :=
  match s with "" => false | _ => true end.

Definition cons_nonempty (w : string) (ws : list string) : list string :=
  if truthy w then w :: ws else ws.

(** The block being read and the blocks after it, where a block is a
    maximal run of characters that [sep] rejects. *)
Fixpoint pieces (sep : ascii → bool) (s : string) : string * list string :=
  match s with
  | "" => ("", [])
  | String c s' =>
      let '(w, ws) := pieces sep s' in
      if sep c then ("", cons_nonempty w ws) else (String c w, ws)
  end.

Definition blocks (sep : ascii → bool) (s : string) : list string :=
  let '(w, ws) := pieces sep s in cons_nonempty w ws.

(** [s.split()]: the maximal runs of characters that are not whitespace. *)
Definition split_ws (s : string) : list string := blocks is_space s.

(** [str(n)] for an integer. *)
Definition of_Z (n : Z) : string := NilZero.string_of_int (Z.to_int n).

End PyStr.

(** ** IngredientExtractor ([predict], step 5) *)

Module Extract.
Import PyStr.

Definition markers : list string :=
  ["ingredients"; "ingredients as served"; "ingredient"].

Definition stop_tokens : list string :=
  ["nutritional"; "nutrition"; String "010" (String "010" ""); "typical values"].

(** The inner loop: the first stop token, in list order, that occurs in
    the lower-cased snippet gives [stop_idx]; [None] is Python's [None]. *)
Fixpoint find_stop (toks : list string) (snippet_lower : string) : option Z :=
  match toks with
  | [] => None
  | t :: ts =>
      let si := find snippet_lower t in
      if decide (si ≠ -1) then Some si else find_stop ts snippet_lower
  end.

Definition cut_snippet (snippet : string) : string :=
  match find_stop stop_tokens (lower snippet) with
  | None => snippet
  | Some stop_idx => slice_to snippet stop_idx
  end.

(** The outer loop over the markers; it leaves [ingredients_text] at [""]
    when no marker occurs. *)
Fixpoint scan_markers (ms : list string) (ocr_text text_lower : string) : string :=
  match ms with
  | [] => ""
  | marker :: ms' =>
      let idx := find text_lower marker in
      if decide (idx ≠ -1) then cut_snippet (slice_from ocr_text idx)
      else scan_markers ms' ocr_text text_lower
  end.

Definition ingredients_text_of (ocr_text : string) : string :=
  let ingredients_text := scan_markers markers ocr_text (lower ocr_text) in
  if truthy ingredients_text then ingredients_text else ocr_text.

(** ** Tokenisation: [re.split(r'[,\n;]+', text)] *)

Definition is_sep (c : ascii) : bool :=
  bool_decide (c = ","%char ∨ c = "010"%char ∨ c = ";"%char).

(** [in_run] says that the character before was a separator, so that a
    run of separators is one match of the pattern.  The head of the
    result is the piece that starts here. *)
Fixpoint re_split_from (in_run : bool) (s : string) : list string :=
  match s with
  | "" => [""]
  | String c s' =>
      if is_sep c then
        if in_run then re_split_from true s'
        else "" :: re_split_from true s'
      else
        match re_split_from false s' with
        | p :: ps => String c p :: ps
        | [] => [String c ""]
        end
  end.

Definition re_split (s : string) : list string := re_split_from false s.

(** [[t.strip() for t in pieces if t.strip()]] *)
Fixpoint strip_nonempty (pieces : list string) : list string :=
  match pieces with
  | [] => []
  | t :: ts =>
      if truthy (strip t) then strip t :: strip_nonempty ts
      else strip_nonempty ts
  end.

Definition tokenize (ingredients_text : string) : list string :=
  strip_nonempty (re_split ingredients_text).

(** [tokens[:200]] *)
Definition exposed_tokens (tokens : list string) : list string :=
  take 200 tokens.

End Extract.

(** ** Python numbers *)

Module PyNum.

(** A call that may raise; [Raise e] carries [str(e)]. *)
Inductive result (A : Type) :=
| Ok (a : A)
| Raise (e : string).
Arguments Ok {A} a.
Arguments Raise {A} e.

(** The angle of a rectangle, in degrees: a rational when it is finite. *)
Inductive pyfloat :=
| Fin (q : Qc)
| PInf
| NInf
| NaN.

Definition of_int (z : Z) : pyfloat := Fin (Q2Qc (inject_Z z)).

(** [a + b] on angles; exact, see the conventions. *)
Definition add (a b : pyfloat) : pyfloat :=
  match a, b with
  | NaN, _ | _, NaN => NaN
  | PInf, NInf | NInf, PInf => NaN
  | PInf, _ | _, PInf => PInf
  | NInf, _ | _, NInf => NInf
  | Fin x, Fin y => Fin (x + y)%Qc
  end.

(** A number is an [int] or a [float]. *)
Inductive pynum :=
| PInt (z : Z)
| PFloat (f : pyfloat).

(** [int(x)]: truncation towards zero; the infinities and [nan] raise. *)
Definition to_int (x : pynum) : result Z :=
  match x with
  | PInt z => Ok z
  | PFloat (Fin q) => Ok (Z.quot (Qnum q) (Z.pos (Qden q)))
  | PFloat NaN => Raise "cannot convert float NaN to integer"
  | PFloat _ => Raise "cannot convert float infinity to integer"
  end.

End PyNum.

(** ** Python floats: IEEE 754 binary64 *)

Module Float64.
Import PyNum.

Definition prec : Z := 53.
Definition emax : Z := 1024.

Definition float : Type := spec_float.

Definition NaN : float := S754_nan.

(** [float(z)] for an integer that a float can hold. *)
Definition of_int (z : Z) : float := binary_normalize prec emax z 0 false.

Definition one : float := Eval cbv in of_int 1.

(** [float(z)]: an integer beyond the largest float raises. *)
Definition float_of_int (z : Z) : result float :=
  match of_int z with
  | S754_infinity _ => Raise "int too large to convert to float"
  | f => Ok f
  end.

Definition add (a b : float) : float := SFadd prec emax a b.
Definition sub (a b : float) : float := SFsub prec emax a b.
Definition mul (a b : float) : float := SFmul prec emax a b.
Definition div (a b : float) : float := SFdiv prec emax a b.

(** [a / b] on two integers that are not negative: the quotient rounded
    once. *)
Definition true_div (a b : nat) : result float :=
  match a, b with
  | _, O => Raise "division by zero"
  | O, _ => Ok (S754_zero false)
  | _, _ =>
      match SFdiv prec emax (S754_finite false (Pos.of_nat a) 0)
                            (S754_finite false (Pos.of_nat b) 0) with
      | S754_infinity _ => Raise "integer division result too large for a float"
      | f => Ok f
      end
  end.

(** [a < b]; every comparison with [nan] is false. *)
Definition less (a b : float) : bool := SFltb a b.

(** [a > 0] *)
Definition gt0 (a : float) : bool := less (S754_zero false) a.

(** [sum(l)]: the start value is the integer 0, and the items are added
    one after the other. *)
Definition sum (l : list float) : float := foldl add (of_int 0) l.

(** A number is an [int] or a [float]. *)
Inductive number :=
| PInt (z : Z)
| PFloat (f : float).

(** [max(0, x)] for a float [x]: the first argument stays unless the
    second is greater. *)
Definition max0 (x : float) : number :=
  if gt0 x then PFloat x else PInt 0.

(** [max(1.0, x)] *)
Definition max1 (x : float) : float :=
  if less one x then x else one.

(** The integer part of [m * 2 ^ e], with the sign [s]. *)
Definition trunc (s : bool) (m : positive) (e : Z) : Z :=
  let a := match e with
           | Z.neg p => Z.pos m / 2 ^ Z.pos p
           | _ => Z.pos m * 2 ^ e
           end in
  if s then - a else a.

(** [int(x)]: truncation towards zero; the infinities and [nan] raise. *)
Definition to_int (x : number) : result Z :=
  match x with
  | PInt z => Ok z
  | PFloat (S754_zero _) => Ok 0
  | PFloat (S754_finite s m e) => Ok (trunc s m e)
  | PFloat S754_nan => Raise "cannot convert float NaN to integer"
  | PFloat (S754_infinity _) => Raise "cannot convert float infinity to integer"
  end.

End Float64.

(** ** AllergenScorer ([predict], step 6) *)

Module Scorer.
Import PyStr PyNum Float64.

(** A cell of the [impact] column: the float [astype(float)] gives (a
    missing value is [nan]), or a text on which it raises. *)
Inductive cell :=
| Number (f : float)
| NotNumber (text : string).

(** The reference table as the two loops read it, that is after line 110
    has set the column [ingredient_lc]: the first column as strings, and
    the [impact] column when the file has one. *)
Inductive Table :=
| NoImpact (names : list string)
| WithImpact (rows : list (string * cell)).

(** Line 110, [df_ing['ingredient_lc'] = df_ing[df_ing.columns[0]]
    .astype(str).str.lower()], on the frame [read_csv] gives, [header]
    being the name of its first column: a first column that is itself
    named [ingredient_lc] is replaced by its lower-cased copy. *)
Definition with_ingredient_lc (header : string) (t : Table) : Table :=
  if decide (header = "ingredient_lc") then
    match t with
    | NoImpact names => NoImpact (lower <$> names)
    | WithImpact rows => WithImpact ((λ r, (lower r.1, r.2)) <$> rows)
    end
  else t.

Definition names_of (t : Table) : list string :=
  match t with
  | NoImpact names => names
  | WithImpact rows => rows.*1
  end.

(** [ingredientsv1.csv] next to the script; a file that is read is given
    by the frame after line 110. *)
Inductive CsvFile :=
| Missing
| Unreadable (e : string)
| Loaded (t : Table).

(** [df_ing['ingredient_lc'].str.contains(re.escape(tl))] on one row *)
Definition row_matches (tl name : string) : bool := contains tl (lower name).

Definition matching_names (names : list string) (t : string) : list string :=
  filter (λ name, row_matches (lower t) name) names.

(** The first loop over the tokens: the matching entries of the first
    column, as they stand after line 110. *)
Definition table_allergens (names : list string) (tokens : list string) : list string :=
  tokens ≫= matching_names names.

Fixpoint as_floats (cs : list cell) : result (list float) :=
  match cs with
  | [] => Ok []
  | Number f :: cs' =>
      match as_floats cs' with
      | Ok fs => Ok (f :: fs)
      | Raise e => Raise e
      end
  | NotNumber text :: _ => Raise ("could not convert string to float: " +:+ text)
  end.

Definition matching_cells (rows : list (string * cell)) (t : string) : list cell :=
  (filter (λ r, row_matches (lower t) r.1) rows).*2.

(** The second loop over the tokens. *)
Fixpoint collect_impacts (rows : list (string * cell)) (tokens : list string)
  : result (list float) :=
  match tokens with
  | [] => Ok []
  | t :: ts =>
      match as_floats (matching_cells rows t) with
      | Raise e => Raise e
      | Ok fs =>
          match collect_impacts rows ts with
          | Ok rest => Ok (fs ++ rest)%list
          | Raise e => Raise e
          end
      end
  end.

(** The [try] block: [allergens_found] and [health_score] when it is left;
    an exception leaves what was assigned before it. *)
Definition table_pass (csv : CsvFile) (tokens : list string)
  : list string * option number :=
  match csv with
  | Missing => ([], None)
  | Unreadable _ => ([], None)
  | Loaded t =>
      let allergens_found := table_allergens (names_of t) tokens in
      match t with
      | NoImpact _ => (allergens_found, None)
      | WithImpact rows =>
          match collect_impacts rows tokens with
          | Raise _ => (allergens_found, None)
          | Ok [] => (allergens_found, None)
          | Ok impacts =>
              (allergens_found, Some (max0 (sub (of_int 100) (sum impacts))))
          end
      end
  end.

Definition sample_allergens : list string :=
  ["milk"; "egg"; "eggs"; "peanut"; "peanuts"; "soy"; "wheat"; "gluten";
   "fish"; "shellfish"; "tree nut"; "almond"; "cashew"].

Definition fallback_allergens (tokens : list string) : list string :=
  tokens ≫= λ t, filter (λ a, contains a (lower t)) sample_allergens.

Definition bad_words : list string :=
  ["sugar"; "salt"; "sodium"; "hydrogenated"; "trans"; "palmitate"; "fat";
   "fatty"; "oil"; "flavour"; "flavor"].

Definition penalty_of (tokens : list string) : Z :=
  foldl (λ penalty t,
           foldl (λ penalty k, if contains k (lower t) then penalty + 5 else penalty)
                 penalty bad_words)
        0 tokens.

Definition fallback_score (tokens : list string) : number :=
  PInt (Z.max 0 (100 - penalty_of tokens)).

(** [allergens_found] and [health_score] before the response is built. *)
Definition allergen_scorer (csv : CsvFile) (tokens : list string)
  : list string * number :=
  let '(found, score) := table_pass csv tokens in
  let allergens_found :=
    match found with
    | [] => fallback_allergens tokens
    | _ => found
    end in
  let health_score :=
    match score with
    | None => fallback_score tokens
    | Some s => s
    end in
  (allergens_found, health_score).

(** [sorted(set(l))] *)
Definition sorted_set (l : list string) : list string :=
  merge_sort String.le (elements (list_to_set l : gset string)).

(** The two outputs as the response shows them. *)
Definition allergens_of (csv : CsvFile) (tokens : list string) : list string :=
  sorted_set (allergen_scorer csv tokens).1.

Definition health_of (csv : CsvFile) (tokens : list string) : result Z :=
  to_int (allergen_scorer csv tokens).2.

End Scorer.

(** ** The response of [/predict] *)

Module Response.
Import PyStr PyNum Float64 Extract Scorer.

Record Prediction := {
  ocr_text : string;
  ingredients_text : string;
  tokens : list string;
  allergens : list string;
  health_score : Z
}.

(** The JSON body and the status code. *)
Inductive Response :=
| Success (p : Prediction)                 (* ok: True, status 200 *)
| NoFile                                   (* "no file uploaded", ok: False, 400 *)
| TesseractFailed (detail : string)        (* "tesseract failed", 500 *)
| ServerError (detail : string).           (* "server error", 500 *)

Definition status (r : Response) : Z :=
  match r with
  | Success _ => 200
  | NoFile => 400
  | TesseractFailed _ | ServerError _ => 500
  end.

(** Steps 5 to 7: from the OCR text to the response.  [int(health_score)]
    may raise, which the outer handler turns into a server error. *)
Definition respond (csv : CsvFile) (ocr : string) : Response :=
  let ingredients := ingredients_text_of ocr in
  let toks := tokenize ingredients in
  match health_of csv toks with
  | Raise e => ServerError e
  | Ok h =>
      Success {| ocr_text := ocr;
                 ingredients_text := ingredients;
                 tokens := exposed_tokens toks;
                 allergens := allergens_of csv toks;
                 health_score := h |}
  end.

End Response.

(** ** The collaborators: OpenCV, Pillow, Tesseract *)

Module Imaging.
Import PyStr PyNum.

#[global] Instance result_ret : MRet result := λ _ a, Ok a.
#[global] Instance result_bind : MBind result := λ _ _ f m,
  match m with
  | Ok a => f a
  | Raise e => Raise e
  end.

Definition bytes := list Byte.byte.

(** A numpy array of pixels: [shape] is [(h, w)] or [(h, w, c)]. *)
Record Bitmap := { shape : list nat; pixels : list N }.


(** A Pillow image. *)
Record Picture := { mode : string; raster : Bitmap }.

Inductive ColorCode := COLOR_RGB2BGR | COLOR_BGR2RGB | COLOR_BGR2GRAY | COLOR_GRAY2BGR.
Inductive Interpolation := INTER_LINEAR | INTER_CUBIC.

Record Libraries := {
  (** [cv2.imdecode(np.fromfile(path, np.uint8), cv2.IMREAD_COLOR)];
      [None] when the codec reads no image, an error on an empty buffer. *)
  imdecode_color : bytes → result (option Bitmap);
  cvtColor : Bitmap → ColorCode → result Bitmap;
  (** [cv2.resize(src, (width, height), interpolation=...)] *)
  resize : Bitmap → nat * nat → Interpolation → result Bitmap;
  medianBlur : Bitmap → nat → result Bitmap;
  (** [cv2.adaptiveThreshold(src, maxValue, ADAPTIVE_THRESH_GAUSSIAN_C,
      THRESH_BINARY, blockSize, C)] *)
  adaptiveThreshold : Bitmap → Z → Z → Z → result Bitmap;
  bilateralFilter : Bitmap → Z → Z → Z → result Bitmap;
  GaussianBlur : Bitmap → nat * nat → Z → result Bitmap;
  (** [cv2.threshold(src, 0, 255, THRESH_BINARY + THRESH_OTSU)[1]] *)
  threshold_otsu : Bitmap → result Bitmap;
  (** [cv2.filter2D(src, -1, kernel)] *)
  filter2D : Bitmap → list (list Z) → result Bitmap;
  bitwise_not : Bitmap → result Bitmap;
  (** [np.column_stack(np.where(thresh < 255))] *)
  dark_coords : Bitmap → list (nat * nat);
  (** [cv2.minAreaRect(coords)[-1]] *)
  minAreaRect_angle : list (nat * nat) → result pyfloat;
  (** [cv2.warpAffine(src, cv2.getRotationMatrix2D(center, angle, 1.0),
      (w, h), flags=INTER_CUBIC, borderMode=BORDER_REPLICATE)] *)
  rotate : Bitmap → nat * nat → pyfloat → nat * nat → result Bitmap;
  (** [Image.open(path)] *)
  Image_open : bytes → result Picture;
  (** [img.convert(mode)] *)
  convert : Picture → string → result Picture;
  (** [np.array(img)] *)
  np_array : Picture → Bitmap;
  (** [Image.fromarray(a)] *)
  fromarray : Bitmap → result Picture;
  (** [pytesseract.image_to_string(img, config=...)]; an array is turned
      into an image with [Image.fromarray] first. *)
  image_to_string : Picture → string → result string
}.


End Imaging.

(** ** The handler [predict] of [app.py] *)

Module App.
Import PyStr PyNum Extract Scorer Response Imaging.

(** An uploaded file; it is truthy when it has a file name. *)
Record FileStorage := { filename : string; content : bytes }.

(** [request.files.get("file") or request.files.get("image") or None] *)
Definition pick_file (files : gmap string FileStorage) : option FileStorage :=
  let truthy_file key :=
    match files !! key with
    | Some f => if truthy (filename f) then Some f else None
    | None => None
    end in
  match truthy_file "file" with
  | Some f => Some f
  | None => truthy_file "image"
  end.

Section handler.
Context (L : Libraries).

(** Step 3, the ImageLoader: the codec first, Pillow when it gives
    [None]. *)
Definition load_image (data : bytes) : result Bitmap :=
  img_bgr ← imdecode_color L data;
  match img_bgr with
  | Some img_bgr => Ok img_bgr
  | None =>
      img_pil ← Image_open L data;
      img_pil ← convert L img_pil "RGB";
      cvtColor L (np_array L img_pil) COLOR_RGB2BGR
  end.

(** [h, w = gray.shape] *)
Definition unpack_shape (b : Bitmap) : result (nat * nat) :=
  match shape b with
  | [h; w] => Ok (h, w)
  | [] | [_] => Raise "not enough values to unpack (expected 2)"
  | _ => Raise "too many values to unpack (expected 2)"
  end.

(** Step 3, the preprocessing: grey, resize when small, blur,
    threshold. *)
Definition preprocess (img_bgr : Bitmap) : result Bitmap :=
  gray ← cvtColor L img_bgr COLOR_BGR2GRAY;
  '(h, w) ← unpack_shape gray;
  gray ← (if decide (Nat.max h w < 1000)%nat
          then resize L gray (w * 2, h * 2)%nat INTER_LINEAR
          else Ok gray);
  gray ← medianBlur L gray 3;
  adaptiveThreshold L gray 255 31 10.

(** Step 4: one OCR run, in a [try] of its own. *)
Definition run_ocr (th : Bitmap) : result string :=
  img ← fromarray L th;
  image_to_string L img "--oem 3 --psm 6".

(** The handler.  The debug files are taken to be written without
    error. *)
Definition predict (files : gmap string FileStorage) (csv : CsvFile) : Response :=
  match pick_file files with
  | None => NoFile
  | Some file =>
      match img_bgr ← load_image (content file); preprocess img_bgr with
      | Raise e => ServerError e
      | Ok th =>
          match run_ocr th with
          | Raise e => TesseractFailed e
          | Ok ocr => respond csv ocr
          end
      end
  end.

End handler.
End App.

(** ** The best-of-N experiment of [test_ocr.py] *)

Module TestOcr.
Import PyStr PyNum Imaging.

Definition BASE_CONFIG : string := "--oem 1".

(** A Python [dict] with string keys, in insertion order. *)
Definition dict (V : Type) := list (string * V).

(** [d[k] = v] *)
Fixpoint dict_set {V} (k : string) (v : V) (d : dict V) : dict V :=
  match d with
  | [] => [(k, v)]
  | (k', v') :: d' =>
      if decide (k' = k) then (k, v) :: d' else (k', v') :: dict_set k v d'
  end.

Fixpoint dict_get {V} (k : string) (d : dict V) : option V :=
  match d with
  | [] => None
  | (k', v') :: d' => if decide (k' = k) then Some v' else dict_get k d'
  end.

(** [score_text] *)
Definition score_text (text : string) : Z :=
  if truthy text
  then Z.of_nat (length (filter (λ w, (1 <? String.length w)%nat) (split_ws text)))
  else 0.

(** One entry of [results]: the name, the best score, the best text. *)
Record Entry := { name : string; score : Z; text : string }.

(** [sorted(results, key=lambda x: x[1], reverse=True)]: stable, so that
    among equal scores the earlier entry stays first. *)
Fixpoint insert_desc (r : Entry) (l : list Entry) : list Entry :=
  match l with
  | [] => [r]
  | x :: l' => if decide (score r < score x) then x :: insert_desc r l' else r :: l
  end.

Definition sorted_desc (l : list Entry) : list Entry := foldr insert_desc [] l.

Section experiment.
Context (L : Libraries).

(** [load_image]; the file at [IMG_PATH] is taken to exist. *)
Definition load_image (data : bytes) : result Picture :=
  pil ← Image_open L data;
  convert L pil "RGB".

Definition pil_to_cv (img_pil : Picture) : result Bitmap :=
  cvtColor L (np_array L img_pil) COLOR_RGB2BGR.

Definition cv_to_pil (img_cv : Bitmap) : result Picture :=
  rgb ← cvtColor L img_cv COLOR_BGR2RGB;
  fromarray L rgb.

(** [img.shape[:2]] *)
Definition shape2 (b : Bitmap) : result (nat * nat) :=
  match shape b with
  | h :: w :: _ => Ok (h, w)
  | _ => Raise "not enough values to unpack (expected 2)"
  end.

(** [max(1.0, (target_dpi*2) / m)]: the quotient of two integers is a
    float. *)
Definition scale_of (target_dpi m : nat) : result Float64.float :=
  ratio ← Float64.true_div (target_dpi * 2) m;
  Ok (Float64.max1 ratio).

(** [int(x * scale)]: the integer becomes a float, and the product is
    rounded before it is cut. *)
Definition scaled (x : nat) (scale : Float64.float) : result Z :=
  fx ← Float64.float_of_int (Z.of_nat x);
  Float64.to_int (Float64.PFloat (Float64.mul fx scale)).

Definition resize_for_ocr (img_cv : Bitmap) (target_dpi : nat) : result Bitmap :=
  '(h, w) ← shape2 img_cv;
  scale ← scale_of target_dpi (Nat.min h w);
  new_w ← scaled w scale;
  new_h ← scaled h scale;
  resize L img_cv (Z.to_nat new_w, Z.to_nat new_h) INTER_CUBIC.

(** [a < -45] on floats *)
Definition below_minus_45 (a : pyfloat) : bool :=
  match a with
  | Fin q => bool_decide (q < Q2Qc (inject_Z (-45)))%Qc
  | NInf => true
  | PInf | NaN => false
  end.

Definition deskew_image (img_gray : Bitmap) : result (Bitmap * pyfloat) :=
  thresh ← threshold_otsu L img_gray;
  let coords := dark_coords L thresh in
  if decide (length coords < 10)%nat then Ok (img_gray, of_int 0)
  else
    angle ← minAreaRect_angle L coords;
    let angle := if below_minus_45 angle then add angle (of_int 90) else angle in
    '(h, w) ← shape2 img_gray;
    rotated ← rotate L img_gray (w / 2, h / 2)%nat angle (w, h);
    Ok (rotated, angle).

Definition sharpen_kernel : list (list Z) :=
  [[0; -1; 0]; [-1; 5; -1]; [0; -1; 0]].

Definition sharpen_image_cv (img_cv : Bitmap) : result Bitmap :=
  filter2D L img_cv sharpen_kernel.

(** The last loop of [preprocess_variants]: two-dimensional images
    become three-channel ones, key by key. *)
Fixpoint to_bgr_all (items : list (string * Bitmap)) (variants : dict Bitmap)
  : result (dict Bitmap) :=
  match items with
  | [] => Ok variants
  | (k, v) :: rest =>
      if decide (length (shape v) = 2%nat) then
        v' ← cvtColor L v COLOR_GRAY2BGR;
        to_bgr_all rest (dict_set k v' variants)
      else to_bgr_all rest variants
  end.

Definition preprocess_variants (img_pil : Picture) : result (dict Bitmap) :=
  base_cv ← pil_to_cv img_pil;
  resized ← resize_for_ocr base_cv 300;
  gray ← cvtColor L resized COLOR_BGR2GRAY;
  let variants : dict Bitmap := [] in
  a ← adaptiveThreshold L gray 255 31 10;
  let variants := dict_set "adaptive_thresh" a variants in
  b ← bilateralFilter L gray 9 75 75;
  b ← adaptiveThreshold L b 255 31 10;
  let variants := dict_set "bilateral+adapt" b variants in
  c ← GaussianBlur L gray (5, 5)%nat 0;
  c ← threshold_otsu L c;
  let variants := dict_set "gauss+otsu" c variants in
  sharp ← sharpen_image_cv resized;
  dgray ← cvtColor L sharp COLOR_BGR2GRAY;
  d ← threshold_otsu L dgray;
  let variants := dict_set "sharpen+otsu" d variants in
  a' ← from_option Ok (Raise "adaptive_thresh") (dict_get "adaptive_thresh" variants);
  e ← bitwise_not L a';
  let variants := dict_set "inv_adapt" e variants in
  '(deskewed_gray, ang) ← deskew_image gray;
  f ← threshold_otsu L deskewed_gray;
  ang_int ← to_int (PFloat ang);
  let variants := dict_set ("deskew_otsu_" +:+ of_Z ang_int +:+ "deg") f variants in
  to_bgr_all variants variants.

Definition ocr_image_cv (img_cv : Bitmap) (extra_config : string) : result string :=
  pil ← cv_to_pil img_cv;
  image_to_string L pil (BASE_CONFIG +:+ " " +:+ extra_config +:+ " -l eng").

Definition psm_modes : list string := ["--psm 6"; "--psm 3"; "--psm 11"].

(** The body of the [try]: a failure of the engine gives the empty
    text. *)
Definition attempt (img_cv : Bitmap) (psm : string) : string :=
  match ocr_image_cv img_cv psm with
  | Ok txt => txt
  | Raise _ => ""
  end.

(** The loop over the modes, on [(best_score, best_text_for_variant)]. *)
Definition best_of_modes (img_cv : Bitmap) (modes : list string) : Z * string :=
  foldl (λ '(best_score, best_text) psm,
           let txt := attempt img_cv psm in
           let sc := score_text txt in
           if decide (best_score < sc) then (sc, txt) else (best_score, best_text))
        (-1, "") modes.

(** The loop over the variants. *)
Definition run_variants (variants : dict Bitmap) : list Entry :=
  (λ '(nm, img_cv),
     let '(best_score, best_text) := best_of_modes img_cv psm_modes in
     {| name := nm; score := best_score; text := best_text |}) <$> variants.

(** [main]: the sorted results; the best one is the head. *)
Definition main (data : bytes) : result (list Entry) :=
  pil ← load_image data;
  variants ← preprocess_variants pil;
  Ok (sorted_desc (run_variants variants)).

Definition best_result (data : bytes) : result (option Entry) :=
  results_sorted ← main data;
  Ok (head results_sorted).

End experiment.
End TestOcr.

(** ** The features of [train_model.py] *)

Module TrainModel.
Import PyStr.

(** [c.isdigit()] on one code point: the decimal digits and the
    superscripts one, two and three. *)
Definition isdigit (c : ascii) : bool :=
  let n := N_of_ascii c in
  ((48 <=? n) && (n <=? 57) || (n =? 178) || (n =? 179) || (n =? 185))%N.

(** [sum(c.isdigit() for c in s)] *)
Fixpoint count_digits (s : string) : Z :=
  match s with
  | "" => 0
  | String c s' => (if isdigit c then 1 else 0) + count_digits s'
  end.

(** [any(ch.isdigit() for ch in s)] *)
Fixpoint any_digit (s : string) : bool :=
  match s with
  | "" => false
  | String c s' => isdigit c || any_digit s'
  end.

(** [int(b)] *)
Definition int_of_bool (b : bool) : Z := if b then 1 else 0.

(** [featurize_text], on the text [str(s)]. *)
Definition featurize_text (s : string) : list Z :=
  let s := lower s in
  [Z.of_nat (String.length s);
   count_digits s;
   int_of_bool (contains "e" s);
   int_of_bool (contains "sugar" s);
   int_of_bool (contains "hydro" s || contains "trans" s)].

(** The label [main] gives a row of a file without a [score] column. *)
Definition default_score (s : string) : Z :=
  50 + 20 * int_of_bool (contains "sugar" (lower s))
     + 15 * int_of_bool (any_digit s).

End TrainModel.

(** ** The specification's wording, where it is compared with the code *)

Module Spec.
Import PyStr PyNum Float64 Extract Scorer Imaging.

(** "The first occurrence by position of any of the terminator markers":
    the least offset at which one of them occurs. *)
Definition earliest_stop (snippet_lower : string) : option Z :=
  foldr (λ t best,
           let si := find snippet_lower t in
           if decide (si = -1) then best
           else match best with
                | None => Some si
                | Some b => Some (Z.min si b)
                end)
        None stop_tokens.

Definition cut_at_earliest (snippet : string) : string :=
  match earliest_stop (lower snippet) with
  | None => snippet
  | Some stop_idx => slice_to snippet stop_idx
  end.

(** The marker phrases in the order the specification gives them. *)
Definition markers_in_spec_order : list string :=
  ["ingredients as served"; "ingredients"; "ingredient"].

(** The offset at which the snippet starts: that of the first phrase of
    [ms], in list order, that occurs in the lower-cased text. *)
Fixpoint marker_offset (ms : list string) (text_lower : string) : option Z :=
  match ms with
  | [] => None
  | marker :: ms' =>
      let idx := find text_lower marker in
      if decide (idx ≠ -1) then Some idx else marker_offset ms' text_lower
  end.

(** "Split on runs of comma/semicolon/newline characters, trim whitespace
    on each piece, and drop empty pieces": the pieces are the maximal
    blocks without a separator. *)
Definition tokens_by_blocks (text : string) : list string :=
  filter (λ t, t ≠ "") (strip <$> blocks is_sep text).

(** A string that does not start with whitespace. *)
Definition no_lead (s : string) : Prop :=
  match s with
  | "" => True
  | String c _ => is_space c = false
  end.

(** Every character of the string passes the test. *)
Fixpoint all_chars (p : ascii → bool) (s : string) : bool :=
  match s with
  | "" => true
  | String c s' => p c && all_chars p s'
  end.


(** The number of (token, undesirable word) pairs that match. *)
Definition bad_matches (tokens : list string) : nat :=
  length (tokens ≫= λ t, filter (λ k, contains k (lower t)) bad_words).

(** An impact weight that is not negative: a zero, a positive number,
    the positive infinity, or [nan]. *)
Definition not_negative (f : float) : Prop :=
  match f with
  | S754_finite s _ _ | S754_infinity s => s = false
  | S754_zero _ | S754_nan => True
  end.

(** "The default single-pipeline path run alone on the same image": the
    pipeline of [predict] ([load_image], [preprocess], [run_ocr]), its
    text scored as the selector scores a text. *)
Definition default_pipeline_score (L : Libraries) (data : bytes) : result Z :=
  img_bgr ← App.load_image L data;
  th ← App.preprocess L img_bgr;
  ocr_text ← App.run_ocr L th;
  Ok (TestOcr.score_text ocr_text).

Definition no_negative_impact (csv : CsvFile) : Prop :=
  match csv with
  | Loaded (WithImpact rows) =>
      Forall (λ r, match r.2 with
                   | Number f => not_negative f
                   | NotNumber _ => True
                   end) rows
  | _ => True
  end.

End Spec.

(** ** Sample collaborators, on which the theorems are instantiated *)

Module Sample.
Import PyStr PyNum Scorer Imaging App.

(** The float a decimal with one digit after the point is read as, for
    instance 49.9 from 499: the nearest float to the quotient by 10. *)
Definition tenths (n : Z) : Float64.float :=
  Float64.div (Float64.of_int n) (Float64.of_int 10).

Definition with_shape (sh : list nat) (b : Bitmap) : Bitmap :=
  {| shape := sh; pixels := pixels b |}.

(** Height and width, 1 by 1 for an array without them. *)
Definition plane (b : Bitmap) : list nat :=
  match shape b with
  | h :: w :: _ => [h; w]
  | _ => [1; 1]%nat
  end.

(** A small library: the codec reads the data that start with the byte
    [B], fails on no data and, as OpenCV does on an image wider than
    2^20 pixels, on the data that start with the byte [W]; Pillow reads
    the data that start with the byte [G] or [W]; and the image
    operations only change the shape.  The OCR engine is a parameter. *)
Definition libraries (engine : Picture → string → result string) : Libraries := {|
  imdecode_color data :=
    match data with
    | [] => Raise "(-215:Assertion failed) !buf.empty() in function imdecode_"
    | Byte.x42 :: _ => Ok (Some {| shape := [2; 2; 3]%nat; pixels := [] |})
    | Byte.x57 :: _ =>
        Raise "(-215:Assertion failed) size.width <= CV_IO_MAX_IMAGE_WIDTH in function validateInputImageSize"
    | _ => Ok None
    end;
  cvtColor b code :=
    match code with
    | COLOR_BGR2GRAY => Ok (with_shape (plane b) b)
    | COLOR_GRAY2BGR => Ok (with_shape (plane b ++ [3%nat]) b)
    | COLOR_RGB2BGR | COLOR_BGR2RGB => Ok b
    end;
  resize b size _ := Ok (with_shape (size.2 :: size.1 :: drop 2 (shape b)) b);
  medianBlur b _ := Ok b;
  adaptiveThreshold b _ _ _ := Ok b;
  bilateralFilter b _ _ _ := Ok b;
  GaussianBlur b _ _ := Ok b;
  threshold_otsu b := Ok b;
  filter2D b _ := Ok b;
  bitwise_not b := Ok b;
  dark_coords _ := [];
  minAreaRect_angle _ := Ok (of_int 0);
  rotate b _ _ _ := Ok b;
  Image_open data :=
    match data with
    | Byte.x47 :: _ | Byte.x57 :: _ =>
        Ok {| mode := "L"; raster := {| shape := [2; 2]%nat; pixels := [] |} |}
    | _ => Raise "cannot identify image file"
    end;
  convert p m :=
    Ok {| mode := m;
          raster := with_shape (plane (raster p) ++ (if decide (m = "RGB") then [3%nat] else [])) (raster p) |};
  np_array p := raster p;
  fromarray b := Ok {| mode := "RGB"; raster := b |};
  image_to_string := engine
|}.

(** An engine that reads the same label under every configuration. *)
Definition reading (label : string) : Picture → string → result string :=
  λ _ _, Ok label.

(** An engine that always fails. *)
Definition broken : Picture → string → result string :=
  λ _ _, Raise "tesseract is not installed".

(** An engine that fails under [--psm 6] only. *)
Definition flaky (label : string) : Picture → string → result string :=
  λ _ config,
    if contains "--psm 6" config then Raise "tesseract timed out" else Ok label.

(** An engine that reads the label under the configuration of [predict]
    and nothing under any other. *)
Definition picky (label : string) : Picture → string → result string :=
  λ _ config, if decide (config = "--oem 3 --psm 6") then Ok label else Ok "".

(** The same library for an image with dark pixels, tilted by 60 degrees:
    [minAreaRect] reports the angle -60. *)
Definition tilted (engine : Picture → string → result string) : Libraries :=
  let base := libraries engine in {|
  imdecode_color := imdecode_color base;
  cvtColor := cvtColor base;
  resize := resize base;
  medianBlur := medianBlur base;
  adaptiveThreshold := adaptiveThreshold base;
  bilateralFilter := bilateralFilter base;
  GaussianBlur := GaussianBlur base;
  threshold_otsu := threshold_otsu base;
  filter2D := filter2D base;
  bitwise_not := bitwise_not base;
  dark_coords _ := (λ i, (i, i)) <$> seq 0 12;
  minAreaRect_angle _ := Ok (of_int (-60));
  rotate := rotate base;
  Image_open := Image_open base;
  convert := convert base;
  np_array := np_array base;
  fromarray := fromarray base;
  image_to_string := image_to_string base
|}.

Definition upload (data : bytes) : gmap string FileStorage :=
  {[ "file" := {| filename := "label.jpg"; content := data |} ]}.

Definition codec_data : bytes := [Byte.x42; Byte.x4d].
Definition pillow_data : bytes := [Byte.x47; Byte.x49].

End Sample.

(** * Properties *)

Import PyStr PyNum Float64 Extract Scorer Response Imaging.

(** ** The result record *)

Section record.

(** A success response carries what steps 5 to 7 computed. *)
Lemma respond_success (csv : CsvFile) (ocr : string) (p : Prediction) :
  respond csv ocr = Success p →
  ocr_text p = ocr
  ∧ ingredients_text p = ingredients_text_of ocr
  ∧ tokens p = exposed_tokens (tokenize (ingredients_text_of ocr))
  ∧ allergens p = allergens_of csv (tokenize (ingredients_text_of ocr))
  ∧ health_of csv (tokenize (ingredients_text_of ocr)) = Ok (health_score p).
Proof.
  unfold respond.
  destruct (health_of csv (tokenize (ingredients_text_of ocr))) as [h|e]; [|done].
  by intros [= <-].
Qed.

End record.

(** ** AllergenScorer: the fallback rules *)

Section fallback.

Lemma penalty_inner_shift (tl : string) (ks : list string) (p : Z) :
  foldl (λ penalty k, if contains k tl then penalty + 5 else penalty) p ks
  = p + 5 * Z.of_nat (length (filter (λ k, contains k tl) ks)).
Proof.
  revert p. induction ks as [|k ks IH]; intros p; simpl; [lia|].
  rewrite IH, filter_cons. destruct (contains k tl); simpl; lia.
Qed.

Lemma penalty_outer_shift (tokens : list string) (p : Z) :
  foldl (λ penalty t,
           foldl (λ penalty k, if contains k (lower t) then penalty + 5 else penalty)
                 penalty bad_words) p tokens
  = p + 5 * Z.of_nat (Spec.bad_matches tokens).
Proof.
  revert p. unfold Spec.bad_matches.
  induction tokens as [|t ts IH]; intros p; [simpl; lia|].
  cbn [foldl]. rewrite IH, penalty_inner_shift.
  rewrite bind_cons, length_app. lia.
Qed.

(** The fallback penalty is 5 points for every match of a token with an
    undesirable word. *)
Lemma penalty_of_matches (tokens : list string) :
  penalty_of tokens = 5 * Z.of_nat (Spec.bad_matches tokens).
Proof. unfold penalty_of. rewrite penalty_outer_shift. lia. Qed.

Lemma health_of_fallback (csv : CsvFile) (tokens : list string) :
  (table_pass csv tokens).2 = None →
  health_of csv tokens = Ok (Z.max 0 (100 - 5 * Z.of_nat (Spec.bad_matches tokens))).
Proof.
  intros H. unfold health_of, allergen_scorer.
  destruct (table_pass csv tokens) as [found sc]. simpl in H. subst sc.
  simpl. by rewrite penalty_of_matches.
Qed.

End fallback.

(** C1, as the specification states it: a score of 85.  The code gives 90:
    "skim milk powder" contains no undesirable word, so only "sugar" and
    "salt" are penalised. *)
Lemma fallback_example_score_is_not_85 :
  health_of Missing ["skim milk powder"; "sugar"; "salt"] ≠ Ok 85.
Proof. vm_compute. discriminate. Qed.

(** C1, amended: with the reference table absent and the tokens
    ["skim milk powder", "sugar", "salt"], the allergens contain "milk" and
    the health score is max(0, 100 - 10) = 90: two matches with the
    undesirable words, 5 points each, as for every token list. *)
Theorem fallback_example :
  let tokens := ["skim milk powder"; "sugar"; "salt"] in
  "milk" ∈ allergens_of Missing tokens
  ∧ Spec.bad_matches tokens = 2%nat
  ∧ health_of Missing tokens = Ok (Z.max 0 (100 - 10))
  ∧ health_of Missing tokens = Ok 90
  ∧ (∀ toks, health_of Missing toks
             = Ok (Z.max 0 (100 - 5 * Z.of_nat (Spec.bad_matches toks)))).
Proof.
  intros tokens. split; [|split; [|split; [|split]]].
  - assert (allergens_of Missing tokens = ["milk"]) as -> by (by vm_compute).
    apply list_elem_of_singleton. done.
  - by vm_compute.
  - by vm_compute.
  - by vm_compute.
  - intros toks. by apply health_of_fallback.
Qed.

(** C10: on the empty OCR text the response is a success with an empty
    ingredients text, no token, no allergen and a health score of 100,
    whatever the reference table is; so is the response of the handler
    when the engine reads the empty text. *)
Theorem empty_text_response (csv : CsvFile) :
  respond csv ""
  = Success {| ocr_text := ""; ingredients_text := ""; tokens := [];
               allergens := []; health_score := 100 |}
  ∧ (∀ L files file th,
       App.pick_file files = Some file →
       (img_bgr ← App.load_image L (App.content file); App.preprocess L img_bgr) = Ok th →
       App.run_ocr L th = Ok "" →
       App.predict L files csv
       = Success {| ocr_text := ""; ingredients_text := ""; tokens := [];
                    allergens := []; health_score := 100 |}).
Proof.
  assert (respond csv ""
          = Success {| ocr_text := ""; ingredients_text := ""; tokens := [];
                       allergens := []; health_score := 100 |}) as Hr.
  { destruct csv as [| e | [names | rows]]; reflexivity. }
  split; [exact Hr|].
  intros L files file th Hf Hth Hocr. unfold App.predict.
  by rewrite Hf, Hth, Hocr.
Qed.

Lemma empty_text_response_witness :
  App.predict (Sample.libraries (Sample.reading "")) (Sample.upload Sample.codec_data)
              (Loaded (WithImpact [("Sugar", Number (of_int 30))]))
  = Success {| ocr_text := ""; ingredients_text := ""; tokens := [];
               allergens := []; health_score := 100 |}.
Proof.
  eapply (proj2 (empty_text_response (Loaded (WithImpact [("Sugar", Number (of_int 30))])))).
  - by vm_compute.
  - by vm_compute.
  - by vm_compute.
Defined.

(** ** Rounding in binary64 *)

(** What the proofs about the score need of the rounding of the standard
    library: aligning a mantissa is exact, shifting it right is a floor
    division, rounding moves a mantissa by at most one, and it keeps the
    sign; so a positive number below 100 is rounded to a float that is at
    most 100. *)

Section rounding.

Lemma iter_xO_pow (m d : positive) : Z.pos (Pos.iter xO m d) = Z.pos m * 2 ^ Z.pos d.
Proof.
  induction d as [|d IH] using Pos.peano_ind.
  - simpl. lia.
  - rewrite Pos.iter_succ, Pos2Z.inj_succ, Z.pow_succ_r by lia.
    rewrite Pos2Z.inj_xO, IH. lia.
Qed.

Lemma shl_align_spec (m : positive) (e e' : Z) :
  (shl_align m e e').2 = Z.min e e'
  ∧ Z.pos (shl_align m e e').1 = Z.pos m * 2 ^ (e - Z.min e e').
Proof.
  unfold shl_align. destruct (e' - e) as [|d|d] eqn:E; simpl.
  - replace (Z.min e e') with e by lia. rewrite Z.sub_diag. simpl. lia.
  - replace (Z.min e e') with e by lia. rewrite Z.sub_diag. simpl. lia.
  - replace (Z.min e e') with e' by lia. split; [done|].
    rewrite iter_xO_pow. f_equal. f_equal. lia.
Qed.

Lemma digits2_pos_bounds (p : positive) :
  2 ^ (Z.pos (digits2_pos p) - 1) ≤ Z.pos p < 2 ^ Z.pos (digits2_pos p).
Proof.
  induction p as [p IH|p IH|]; simpl digits2_pos.
  - rewrite Pos2Z.inj_succ.
    replace (Z.succ (Z.pos (digits2_pos p)) - 1)
      with (Z.succ (Z.pos (digits2_pos p) - 1)) by lia.
    rewrite !Z.pow_succ_r by lia. lia.
  - rewrite Pos2Z.inj_succ.
    replace (Z.succ (Z.pos (digits2_pos p)) - 1)
      with (Z.succ (Z.pos (digits2_pos p) - 1)) by lia.
    rewrite !Z.pow_succ_r by lia. lia.
  - simpl. lia.
Qed.

Lemma shr_1_spec (r : shr_record) :
  0 ≤ shr_m r → shr_m (shr_1 r) = shr_m r / 2.
Proof.
  destruct r as [m a b]. simpl. intros Hm.
  destruct m as [|[p|p|]|p]; simpl; try lia.
  - done.
  - apply Z.div_unique with 1; lia.
  - apply Z.div_unique with 0; lia.
  - done.
Qed.

Lemma iter_shr_1_spec (n : positive) (r : shr_record) :
  0 ≤ shr_m r → shr_m (SpecFloat.iter_pos shr_1 n r) = shr_m r / 2 ^ Z.pos n.
Proof.
  revert r. induction n as [n IH|n IH|]; intros r Hr; simpl SpecFloat.iter_pos.
  - assert (0 ≤ shr_m (shr_1 r)) as H1 by (rewrite shr_1_spec by done; apply Z.div_pos; lia).
    assert (0 ≤ shr_m (SpecFloat.iter_pos shr_1 n (shr_1 r))) as H2
      by (rewrite IH by done; apply Z.div_pos; lia).
    rewrite IH, IH, shr_1_spec by done.
    rewrite !Z.div_div by lia. f_equal.
    replace (Z.pos n~1) with (1 + Z.pos n + Z.pos n) by lia.
    rewrite !Z.pow_add_r by lia. lia.
  - assert (0 ≤ shr_m (SpecFloat.iter_pos shr_1 n r)) as H2
      by (rewrite IH by done; apply Z.div_pos; lia).
    rewrite IH, IH by done.
    rewrite !Z.div_div by lia. f_equal.
    replace (Z.pos n~0) with (Z.pos n + Z.pos n) by lia.
    rewrite !Z.pow_add_r by lia. lia.
  - rewrite shr_1_spec by done. done.
Qed.

Lemma shr_spec (r : shr_record) (e n : Z) :
  0 ≤ shr_m r →
  (shr r e n).2 = Z.max e (e + n)
  ∧ shr_m (shr r e n).1 = shr_m r / 2 ^ (Z.max e (e + n) - e).
Proof.
  intros Hr. unfold shr. destruct n as [|p|p]; simpl.
  - replace (Z.max e (e + 0)) with e by lia. rewrite Z.sub_diag, Z.div_1_r. done.
  - replace (Z.max e (e + Z.pos p)) with (e + Z.pos p) by lia. split; [done|].
    rewrite iter_shr_1_spec by done. f_equal. f_equal. lia.
  - replace (Z.max e (e + Z.neg p)) with e by lia. rewrite Z.sub_diag, Z.div_1_r. done.
Qed.

Lemma shr_fexp_spec (m e : Z) (l : location) :
  0 ≤ m →
  let e' := Z.max e (fexp prec emax (Zdigits2 m + e)) in
  (shr_fexp prec emax m e l).2 = e'
  ∧ shr_m (shr_fexp prec emax m e l).1 = m / 2 ^ (e' - e).
Proof.
  intros Hm e'. unfold shr_fexp.
  assert (shr_m (shr_record_of_loc m l) = m) as Hrec by (by destruct l as [|[]]).
  destruct (shr_spec (shr_record_of_loc m l) e (fexp prec emax (Zdigits2 m + e) - e))
    as [H1 H2]; [by rewrite Hrec|].
  rewrite Hrec in H2.
  replace (e + (fexp prec emax (Zdigits2 m + e) - e)) with (fexp prec emax (Zdigits2 m + e)) in * by lia.
  done.
Qed.

Lemma round_nearest_even_bounds (m : Z) (l : location) :
  m ≤ round_nearest_even m l ≤ m + 1.
Proof.
  unfold round_nearest_even. destruct l as [|[]]; try lia.
  destruct (Z.even m); lia.
Qed.

(** the exponent of a value below [100] is at most [-46] *)
Lemma fexp_below_100 (m e : Z) :
  0 ≤ m → e ≤ -46 → m ≤ 100 * 2 ^ (- e) →
  fexp prec emax (Zdigits2 m + e) ≤ -46.
Proof.
  intros Hm He Hb. unfold fexp, emin, prec, emax.
  destruct m as [|p|p]; simpl Zdigits2; [lia| |lia].
  pose proof (digits2_pos_bounds p) as [Hd _].
  assert (2 ^ (Z.pos (digits2_pos p) - 1) < 2 ^ (7 - e)) as Hlt.
  { eapply Z.le_lt_trans; [exact Hd|]. eapply Z.le_lt_trans; [exact Hb|].
    replace (7 - e) with (7 + - e) by lia. rewrite Z.pow_add_r by lia.
    assert (0 < 2 ^ (- e)) by (apply Z.pow_pos_nonneg; lia). lia. }
  apply Z.pow_lt_mono_r_iff in Hlt; lia.
Qed.

Lemma binary_round_below_100 (m : positive) (e : Z) :
  e ≤ -46 → Z.pos m < 100 * 2 ^ (- e) →
  match binary_round prec emax false m e with
  | S754_zero false => True
  | S754_finite false m' e' => e' ≤ -46 ∧ Z.pos m' ≤ 100 * 2 ^ (- e')
  | _ => False
  end.
Proof.
  intros He Hm. unfold binary_round.
  pose proof (shl_align_spec m e (fexp prec emax (Z.pos (digits2_pos m) + e))) as [Hz2 Hz1].
  destruct (shl_align m e _) as [mz ez]. cbn [fst snd] in Hz1, Hz2.
  assert (ez ≤ -46) as Hez by lia.
  assert (Z.pos mz < 100 * 2 ^ (- ez)) as Hmz.
  { rewrite Hz1, <- Hz2. replace (- ez) with (- e + (e - ez)) by lia.
    rewrite Z.pow_add_r by lia.
    assert (0 < 2 ^ (e - ez)) by (apply Z.pow_pos_nonneg; lia). nia. }
  clear Hz1 Hz2 He Hm. unfold binary_round_aux.
  assert (fexp prec emax (Zdigits2 (Z.pos mz) + ez) ≤ -46) as Hf1
    by (apply fexp_below_100; [lia|lia|apply Z.lt_le_incl, Hmz]).
  destruct (shr_fexp_spec (Z.pos mz) ez loc_Exact) as [H12 H11]; [lia|].
  destruct (shr_fexp prec emax (Z.pos mz) ez loc_Exact) as [r1 e1].
  cbn [fst snd] in H11, H12. rewrite <- H12 in H11.
  assert (e1 ≤ -46) as He1 by lia.
  assert (0 ≤ shr_m r1 < 100 * 2 ^ (- e1)) as Hm1.
  { rewrite H11. split; [apply Z.div_pos; [lia|apply Z.pow_pos_nonneg; lia]|].
    apply Z.div_lt_upper_bound; [apply Z.pow_pos_nonneg; lia|].
    rewrite Z.mul_comm, <- Z.mul_assoc, <- Z.pow_add_r by lia.
    replace (- e1 + (e1 - ez)) with (- ez) by lia. done. }
  clear H11 H12 Hf1 Hmz Hez.
  pose proof (round_nearest_even_bounds (shr_m r1) (loc_of_shr_record r1)) as Hr.
  set (m2 := round_nearest_even _ _) in *.
  assert (0 ≤ m2 ≤ 100 * 2 ^ (- e1)) as Hm2 by lia.
  assert (fexp prec emax (Zdigits2 m2 + e1) ≤ -46) as Hf2
    by (apply fexp_below_100; [apply Hm2|lia|apply Hm2]).
  destruct (shr_fexp_spec m2 e1 loc_Exact) as [H22 H21]; [lia|].
  destruct (shr_fexp prec emax m2 e1 loc_Exact) as [r3 e3].
  cbn [fst snd] in H21, H22. rewrite <- H22 in H21.
  assert (e3 ≤ -46) as He3 by lia.
  assert (0 ≤ shr_m r3 ≤ 100 * 2 ^ (- e3)) as Hm3.
  { rewrite H21. split; [apply Z.div_pos; [lia|apply Z.pow_pos_nonneg; lia]|].
    apply Z.div_le_upper_bound; [apply Z.pow_pos_nonneg; lia|].
    rewrite Z.mul_comm, <- Z.mul_assoc, <- Z.pow_add_r by lia.
    replace (- e3 + (e3 - e1)) with (- e1) by lia. lia. }
  destruct (shr_m r3) as [|p3|p3]; [done| |lia].
  replace (e3 <=? emax - prec) with true by (symmetry; apply Z.leb_le; unfold emax, prec; lia).
  split; [done|apply Hm3].
Qed.
(** Rounding keeps the sign. *)
Lemma binary_round_aux_sign (s : bool) (m e : Z) (l : location) :
  match binary_round_aux prec emax s m e l with
  | S754_zero s' | S754_infinity s' | S754_finite s' _ _ => s' = s
  | S754_nan => True
  end.
Proof.
  unfold binary_round_aux.
  destruct (shr_fexp prec emax m e l) as [r1 e1].
  destruct (shr_fexp prec emax _ e1 loc_Exact) as [r2 e2].
  destruct (shr_m r2); [done| |done]. by destruct (e2 <=? emax - prec).
Qed.

Lemma binary_round_sign (s : bool) (m : positive) (e : Z) :
  match binary_round prec emax s m e with
  | S754_zero s' | S754_infinity s' | S754_finite s' _ _ => s' = s
  | S754_nan => True
  end.
Proof.
  unfold binary_round. destruct (shl_align m e _) as [mz ez].
  apply binary_round_aux_sign.
Qed.

End rounding.

(** ** AllergenScorer: the range of the health score *)

Section score_range.

Lemma add_not_negative (a b : float) :
  Spec.not_negative a → Spec.not_negative b → Spec.not_negative (add a b).
Proof.
  destruct a as [sa|sa| |sa ma ea], b as [sb|sb| |sb mb eb]; simpl; try done.
  - by destruct sa, sb.
  - by intros -> ->.
  - intros -> ->. cbn [cond_Zopp]. unfold binary_normalize.
    rewrite <- Pos2Z.inj_add.
    pose proof (binary_round_sign false
      ((shl_align ma ea (Z.min ea eb)).1 + (shl_align mb eb (Z.min ea eb)).1)
      (Z.min ea eb)) as H.
    by destruct (binary_round _ _ _ _ _).
Qed.

Lemma sum_not_negative (l : list float) :
  Forall Spec.not_negative l → Spec.not_negative (sum l).
Proof.
  unfold sum. assert (Spec.not_negative (of_int 0)) as Hz by done.
  revert Hz. generalize (of_int 0). induction l as [|f l IH]; intros a Ha Hl.
  - done.
  - inversion_clear Hl. simpl. apply IH; [by apply add_not_negative | done].
Qed.

Lemma trunc_nonneg (m : positive) (e : Z) : 0 ≤ trunc false m e.
Proof.
  unfold trunc. destruct e as [|p|p].
  - lia.
  - assert (0 < 2 ^ Z.pos p) by (apply Z.pow_pos_nonneg; lia). lia.
  - apply Z.div_pos; [lia | apply Z.pow_pos_nonneg; lia].
Qed.

Lemma trunc_at_most_100 (m : positive) (e : Z) :
  e ≤ -46 → Z.pos m ≤ 100 * 2 ^ (- e) → trunc false m e ≤ 100.
Proof.
  intros He Hm. unfold trunc. destruct e as [|p|p]; [lia..|].
  change (- Z.neg p) with (Z.pos p) in Hm.
  apply Z.div_le_upper_bound; [apply Z.pow_pos_nonneg; lia | lia].
Qed.


(** With a sum that is not negative, [int(max(0, 100 - s))] is a score. *)
Lemma to_int_max0_sub_100 (s : float) :
  Spec.not_negative s →
  ∃ h, to_int (max0 (sub (of_int 100) s)) = Ok h ∧ 0 ≤ h ≤ 100.
Proof.
  destruct s as [sg|sg| |sg m e]; intros Hs.
  - exists 100. split; [by destruct sg; vm_compute | lia].
  - simpl in Hs. subst sg. exists 0. split; [by vm_compute | lia].
  - exists 0. split; [by vm_compute | lia].
  - simpl in Hs. subst sg.
    assert (of_int 100 = S754_finite false 7036874417766400 (-46)) as ->
      by (by vm_compute).
    unfold sub, SFsub. cbn [cond_Zopp].
    destruct (shl_align_spec 7036874417766400 (-46) (Z.min (-46) e)) as [_ Ha].
    destruct (shl_align_spec m e (Z.min (-46) e)) as [_ Hb].
    set (a := (shl_align 7036874417766400 (-46) (Z.min (-46) e)).1) in *.
    set (b := (shl_align m e (Z.min (-46) e)).1) in *.
    set (ez := Z.min (-46) e) in *.
    assert (Z.min (-46) ez = ez) as Hez1 by lia. rewrite Hez1 in Ha. clear Hez1 Hb.
    assert (Z.pos a = 100 * 2 ^ (- ez)) as Ha'.
    { rewrite Ha. change 7036874417766400 with (100 * 2 ^ 46).
      rewrite <- Z.mul_assoc, <- Z.pow_add_r by lia. do 2 f_equal. lia. }
    clear Ha. unfold binary_normalize.
    destruct (Z.pos a - Z.pos b) as [|d|d] eqn:Hd.
    + exists 0. split; [done | lia].
    + pose proof (binary_round_below_100 d ez ltac:(lia)) as Hr.
      destruct (binary_round prec emax false d ez) as [[]|[]| |[] m' e'];
        try (exfalso; apply Hr; lia).
      * exists 0. split; [done | lia].
      * destruct Hr as [He' Hm']; [lia|].
        exists (trunc false m' e'). split; [done|].
        split; [apply trunc_nonneg | by apply trunc_at_most_100].
    + pose proof (binary_round_sign true d ez) as Hr.
      destruct (binary_round prec emax true d ez) as [sg|sg| |sg m' e'];
        try subst sg; exists 0; (split; [done | lia]).
Qed.

Lemma as_floats_not_negative (cs : list cell) (fs : list float) :
  Forall (λ c, match c with Number f => Spec.not_negative f | NotNumber _ => True end) cs →
  as_floats cs = Ok fs → Forall Spec.not_negative fs.
Proof.
  revert fs. induction cs as [|[f|t] cs IH]; intros fs Hcs; simpl.
  - intros [= <-]. constructor.
  - inversion_clear Hcs. destruct (as_floats cs) as [fs'|e]; [|done].
    intros [= <-]. constructor; [done | by apply IH].
  - done.
Qed.

Lemma collect_impacts_not_negative rows tokens impacts :
  Forall (λ r : string * cell,
            match r.2 with Number f => Spec.not_negative f | NotNumber _ => True end) rows →
  collect_impacts rows tokens = Ok impacts → Forall Spec.not_negative impacts.
Proof.
  intros Hrows. revert impacts.
  induction tokens as [|t ts IH]; intros impacts; simpl.
  - intros [= <-]. constructor.
  - destruct (as_floats (matching_cells rows t)) as [fs|e] eqn:Hfs; [|done].
    destruct (collect_impacts rows ts) as [rest|e]; [|done].
    intros [= <-]. apply Forall_app. split; [|by apply IH].
    eapply as_floats_not_negative; [|exact Hfs].
    unfold matching_cells. apply Forall_fmap.
    apply Forall_forall. intros r Hr. apply list_elem_of_filter in Hr as [_ Hr].
    by eapply (proj1 (Forall_forall _ _) Hrows).
Qed.

Lemma fallback_score_range (tokens : list string) :
  ∃ h, to_int (fallback_score tokens) = Ok h ∧ 0 ≤ h ≤ 100.
Proof.
  unfold fallback_score. rewrite penalty_of_matches. simpl.
  eexists; split; [done | lia].
Qed.

(** The score the [try] block leaves is [None] or [max(0, 100 - s)] for
    the sum [s] of the impacts it has collected. *)
Lemma table_pass_score (csv : CsvFile) (tokens : list string) (sc : number) :
  (table_pass csv tokens).2 = Some sc →
  ∃ rows impacts, csv = Loaded (WithImpact rows)
    ∧ collect_impacts rows tokens = Ok impacts
    ∧ sc = max0 (sub (of_int 100) (sum impacts)).
Proof.
  destruct csv as [| e | [names | rows]]; simpl; try done.
  destruct (collect_impacts rows tokens) as [[|f fs]|e] eqn:Hc; simpl; try done.
  intros [= <-]. by exists rows, (f :: fs).
Qed.

End score_range.




(** ** AllergenScorer: the allergen list *)

Section allergen_list.

Lemma sorted_set_elem (l : list string) (x : string) :
  x ∈ sorted_set l ↔ x ∈ l.
Proof.
  unfold sorted_set. rewrite merge_sort_Permutation, elem_of_elements.
  apply elem_of_list_to_set.
Qed.

Lemma sorted_set_sorted (l : list string) :
  StronglySorted String.le (sorted_set l).
Proof. apply StronglySorted_merge_sort; apply _. Qed.

Lemma sorted_set_NoDup (l : list string) : NoDup (sorted_set l).
Proof.
  unfold sorted_set. rewrite merge_sort_Permutation. apply NoDup_elements.
Qed.

(** The result depends on the elements of the list only, not on their
    order or on how often they occur. *)
Lemma sorted_set_ext (l l' : list string) :
  (∀ x, x ∈ l ↔ x ∈ l') → sorted_set l = sorted_set l'.
Proof.
  intros H. unfold sorted_set. f_equal. f_equal.
  apply set_eq. intros x. rewrite !elem_of_list_to_set. apply H.
Qed.

Lemma table_pass_found (csv : CsvFile) (tokens : list string) :
  (table_pass csv tokens).1
  = match csv with
    | Loaded t => table_allergens (names_of t) tokens
    | _ => []
    end.
Proof.
  destruct csv as [| e | [names | rows]]; simpl; try done.
  by destruct (collect_impacts rows tokens) as [[|f fs]|e].
Qed.

Lemma allergen_scorer_found (csv : CsvFile) (tokens : list string) :
  (allergen_scorer csv tokens).1
  = match (table_pass csv tokens).1 with
    | [] => fallback_allergens tokens
    | found => found
    end.
Proof.
  unfold allergen_scorer. by destruct (table_pass csv tokens) as [[|a found] sc].
Qed.

Lemma bind_same_elements {A B} (f : A → list B) (l l' : list A) :
  (∀ t, t ∈ l ↔ t ∈ l') → ∀ x, x ∈ l ≫= f ↔ x ∈ l' ≫= f.
Proof.
  intros H x. rewrite !list_elem_of_bind.
  split; intros (t & Hx & Ht); exists t; (split; [done | by apply H]).
Qed.

Lemma same_elements_nil {A} (l l' : list A) :
  (∀ x, x ∈ l ↔ x ∈ l') → l = [] → l' = [].
Proof.
  intros H ->. destruct l' as [|a l']; [done|].
  exfalso. eapply not_elem_of_nil, H. left.
Qed.

(** The allergens found depend on the set of tokens only. *)
Lemma allergen_scorer_same_elements csv (tokens tokens' : list string) :
  (∀ t, t ∈ tokens ↔ t ∈ tokens') →
  ∀ x, x ∈ (allergen_scorer csv tokens).1 ↔ x ∈ (allergen_scorer csv tokens').1.
Proof.
  intros H. rewrite !allergen_scorer_found, !table_pass_found.
  assert (∀ x, x ∈ fallback_allergens tokens ↔ x ∈ fallback_allergens tokens')
    as Hfb by (by apply bind_same_elements).
  destruct csv as [| e | t]; [done..|].
  assert (∀ x, x ∈ table_allergens (names_of t) tokens
               ↔ x ∈ table_allergens (names_of t) tokens')
    as Htb by (by apply bind_same_elements).
  destruct (table_allergens (names_of t) tokens) as [|a l] eqn:E.
  - rewrite (same_elements_nil _ _ Htb); done.
  - destruct (table_allergens (names_of t) tokens') as [|a' l'] eqn:E'; [|done].
    symmetry in E'. exfalso.
    assert (a :: l = []) as [=].
    apply (same_elements_nil [] (a :: l)); [|done]. intros x. by rewrite Htb.
Qed.

End allergen_list.

(** C8: the allergen list of the result is sorted and without duplicates,
    it lists what the scorer has found, and it is the same for every
    reordering of the tokens and for every repetition of tokens or of
    matches. *)
Theorem allergens_sorted_dedup (csv : CsvFile) (tokens : list string) :
  StronglySorted String.le (allergens_of csv tokens)
  ∧ NoDup (allergens_of csv tokens)
  ∧ (∀ x, x ∈ allergens_of csv tokens ↔ x ∈ (allergen_scorer csv tokens).1)
  ∧ (∀ tokens', tokens' ≡ₚ tokens →
       allergens_of csv tokens' = allergens_of csv tokens)
  ∧ (∀ tokens', (∀ t, t ∈ tokens' ↔ t ∈ tokens) →
       allergens_of csv tokens' = allergens_of csv tokens)
  ∧ (∀ ocr p,
       tokens = tokenize (ingredients_text_of ocr) → respond csv ocr = Success p →
       allergens p = allergens_of csv tokens).
Proof.
  split; [|split; [|split; [|split; [|split]]]].
  - apply sorted_set_sorted.
  - apply sorted_set_NoDup.
  - intros x. apply sorted_set_elem.
  - intros tokens' Hp. apply sorted_set_ext, allergen_scorer_same_elements.
    intros t. by rewrite Hp.
  - intros tokens' H. by apply sorted_set_ext, allergen_scorer_same_elements.
  - by intros ocr p -> (_ & _ & _ & Hp & _)%respond_success.
Qed.

Lemma allergens_sorted_dedup_witness :
  allergens_of Missing ["wheat flour"; "egg, milk"; "milk"; "egg, milk"]
  = allergens_of Missing ["milk"; "egg, milk"; "wheat flour"]
  ∧ allergens_of Missing ["milk"; "egg, milk"; "wheat flour"] = ["egg"; "milk"; "wheat"].
Proof.
  split; [|by vm_compute].
  apply (proj1 (proj2 (proj2 (proj2 (proj2
    (allergens_sorted_dedup Missing ["milk"; "egg, milk"; "wheat flour"])))))).
  intros t. rewrite !elem_of_cons, !elem_of_nil. tauto.
Defined.

(** ** IngredientExtractor: the token list *)

Section tokens.

Lemma strip_nonempty_filter (l : list string) :
  strip_nonempty l = filter (λ t, t ≠ "") (strip <$> l).
Proof.
  induction l as [|t l IH]; [done|].
  rewrite fmap_cons, filter_cons. cbn [strip_nonempty]. rewrite IH.
  destruct (strip t) as [|c r];
    [rewrite decide_False by (by intros []) | rewrite decide_True by done]; done.
Qed.

Lemma strip_nonempty_app (l1 l2 : list string) :
  strip_nonempty (l1 ++ l2)%list = (strip_nonempty l1 ++ strip_nonempty l2)%list.
Proof.
  induction l1 as [|t l1 IH]; [done|]. simpl. rewrite IH.
  by destruct (truthy (strip t)).
Qed.

Lemma strip_nonempty_cons_nonempty (w : string) (ws : list string) :
  strip_nonempty (cons_nonempty w ws) = strip_nonempty (w :: ws).
Proof. by destruct w. Qed.

Lemma strip_nonempty_truthy (l : list string) :
  strip_nonempty (filter (λ p, truthy p) l) = strip_nonempty l.
Proof.
  induction l as [|p l IH]; [done|]. rewrite filter_cons.
  destruct p as [|c p]; simpl; [done|]. by rewrite IH.
Qed.

Lemma cons_nonempty_filter (w : string) (ws : list string) :
  cons_nonempty w (filter (λ p, truthy p) ws) = filter (λ p, truthy p) (w :: ws).
Proof. rewrite filter_cons. by destruct w. Qed.

Lemma cons_nonempty_app (w : string) (l m : list string) :
  cons_nonempty w (l ++ m)%list = (cons_nonempty w l ++ m)%list.
Proof. by destruct w. Qed.

(** The pieces of [re.split], empty ones left out, are the blocks. *)
Lemma re_split_from_blocks (s : string) :
  (∃ ps, re_split_from false s = (pieces is_sep s).1 :: ps
         ∧ filter (λ p, truthy p) ps = (pieces is_sep s).2)
  ∧ filter (λ p, truthy p) (re_split_from true s) = blocks is_sep s.
Proof.
  induction s as [|c s [(ps & Hf & Hps) Ht]]; [split; [by exists [] | done]|].
  unfold blocks in *. simpl.
  destruct (pieces is_sep s) as [w ws] eqn:Hp. simpl in *.
  destruct (is_sep c); simpl.
  - split; [by exists (re_split_from true s) | done].
  - rewrite Hf. split; [by exists ps|].
    rewrite filter_cons. simpl. by rewrite Hps.
Qed.

Lemma tokenize_blocks (text : string) :
  tokenize text = strip_nonempty (blocks is_sep text).
Proof.
  unfold tokenize, re_split, blocks.
  destruct (re_split_from_blocks text) as [(ps & -> & Hps) _].
  destruct (pieces is_sep text) as [w ws]. simpl in *. subst ws.
  by rewrite cons_nonempty_filter, strip_nonempty_truthy.
Qed.

Lemma pieces_app_sep (s1 s2 : string) (c : ascii) :
  is_sep c →
  pieces is_sep (s1 +:+ String c s2)
  = ((pieces is_sep s1).1, ((pieces is_sep s1).2 ++ blocks is_sep s2)%list).
Proof.
  intros Hc. induction s1 as [|a s1 IH].
  - unfold blocks. simpl. destruct (pieces is_sep s2) as [w ws].
    by destruct (is_sep c).
  - change (String a s1 +:+ String c s2) with (String a (s1 +:+ String c s2)).
    simpl. rewrite IH. destruct (pieces is_sep s1) as [w1 ws1]. simpl.
    destruct (is_sep a); [|done]. by rewrite cons_nonempty_app.
Qed.

Lemma blocks_app_sep (s1 s2 : string) (c : ascii) :
  is_sep c →
  blocks is_sep (s1 +:+ String c s2) = (blocks is_sep s1 ++ blocks is_sep s2)%list.
Proof.
  intros Hc. unfold blocks at 1 2. rewrite pieces_app_sep by done.
  destruct (pieces is_sep s1) as [w1 ws1]. simpl. apply cons_nonempty_app.
Qed.

(** Stripping: what [lstrip] leaves does not start with a space, and
    [rstrip] keeps the first character of what it leaves. *)

Lemma lstrip_no_lead (s : string) : Spec.no_lead (lstrip s).
Proof.
  induction s as [|c s IH]; [done|]. simpl.
  by destruct (is_space c) eqn:E.
Qed.

Lemma lstrip_fixed (s : string) : Spec.no_lead s → lstrip s = s.
Proof. destruct s as [|c s]; [done|]. simpl. by intros ->. Qed.

Lemma rstrip_no_lead (s : string) : Spec.no_lead s → Spec.no_lead (rstrip s).
Proof.
  destruct s as [|c s]; [done|]. simpl. intros Hc.
  destruct (rstrip s); [by rewrite Hc | done].
Qed.

Lemma rstrip_idemp (s : string) : rstrip (rstrip s) = rstrip s.
Proof.
  induction s as [|c s IH]; [done|]. simpl.
  destruct (rstrip s) as [|d r] eqn:E.
  - destruct (is_space c) eqn:Ec; [done|]. simpl. by rewrite Ec.
  - change (rstrip (String c (String d r)))
      with (match rstrip (String d r) with
            | "" => if is_space c then "" else String c ""
            | r' => String c r'
            end).
    by rewrite IH.
Qed.

Lemma strip_idemp (s : string) : strip (strip s) = strip s.
Proof.
  unfold strip.
  rewrite (lstrip_fixed (rstrip (lstrip s)))
    by apply rstrip_no_lead, lstrip_no_lead.
  apply rstrip_idemp.
Qed.

Lemma strip_nonempty_elem (l : list string) (t : string) :
  t ∈ strip_nonempty l → t ≠ "" ∧ ∃ p, p ∈ l ∧ t = strip p.
Proof.
  induction l as [|p l IH]; simpl; [by intros ?%elem_of_nil|].
  destruct (truthy (strip p)) eqn:E.
  - intros [->|H]%elem_of_cons.
    + split; [by destruct (strip p) | exists p; split; [left | done]].
    + destruct (IH H) as (? & q & ? & ?). split; [done|]. exists q. split; [by right | done].
  - intros H. destruct (IH H) as (? & q & ? & ?). split; [done|].
    exists q. split; [by right | done].
Qed.

End tokens.

(** C9: the tokens are the trimmed, non-empty pieces between the runs of
    commas, semicolons and newlines, in the order of the text; the exposed
    list is the first 200 of them. *)
Theorem tokens_of_text (text : string) :
  tokenize text = Spec.tokens_by_blocks text
  ∧ (∀ t, t ∈ tokenize text → t ≠ "" ∧ strip t = t)
  ∧ (∀ s1 c s2, text = s1 +:+ String c s2 → is_sep c →
       tokenize text = (tokenize s1 ++ tokenize s2)%list)
  ∧ exposed_tokens (tokenize text) `prefix_of` tokenize text
  ∧ (length (exposed_tokens (tokenize text)) ≤ 200)%nat
  ∧ ((length (tokenize text) ≤ 200)%nat →
       exposed_tokens (tokenize text) = tokenize text)
  ∧ (∀ csv ocr p,
       text = ingredients_text_of ocr → respond csv ocr = Success p →
       tokens p = exposed_tokens (tokenize text)).
Proof.
  split; [|split; [|split; [|split; [|split; [|split]]]]].
  - unfold Spec.tokens_by_blocks. by rewrite tokenize_blocks, strip_nonempty_filter.
  - intros t Ht. unfold tokenize in Ht.
    apply strip_nonempty_elem in Ht as (Hne & p & _ & ->).
    split; [done | apply strip_idemp].
  - intros s1 c s2 -> Hc.
    by rewrite !tokenize_blocks, blocks_app_sep, strip_nonempty_app.
  - unfold exposed_tokens. apply prefix_take.
  - unfold exposed_tokens. rewrite length_take. lia.
  - intros H. unfold exposed_tokens. by apply take_ge.
  - by intros csv ocr p -> (_ & _ & Hp & _)%respond_success.
Qed.

Lemma tokens_of_text_witness :
  tokenize ("Water, Sugar;; Salt" +:+ String "010" " Oat flour ,")
  = (tokenize "Water, Sugar;; Salt" ++ tokenize " Oat flour ,")%list
  ∧ tokenize " Oat flour ," = ["Oat flour"].
Proof.
  split; [|by vm_compute].
  apply (proj1 (proj2 (proj2
    (tokens_of_text ("Water, Sugar;; Salt" +:+ String "010" " Oat flour ,"))))
    "Water, Sugar;; Salt" "010"%char " Oat flour ,"); [done | by vm_compute].
Defined.

(** ** IngredientExtractor: the snippet *)

Section snippet.

Lemma find_found (s sub : string) :
  find s sub ≠ -1 → ∃ n, find_nat sub s = Some n ∧ find s sub = Z.of_nat n.
Proof.
  unfold find. destruct (find_nat sub s) as [n|]; [|done]. by exists n.
Qed.

Lemma find_nat_startswith (sub s : string) (n : nat) :
  find_nat sub s = Some n → startswith sub (str_drop n s) = true.
Proof.
  revert n. induction s as [|c s IH]; intros n.
  - simpl. destruct (startswith sub "") eqn:E; [|done]. by intros [= <-].
  - cbn [find_nat]. destruct (startswith sub (String c s)) eqn:E.
    + by intros [= <-].
    + destruct (find_nat sub s) as [m|]; [|done]. intros [= <-]. by apply IH.
Qed.

Lemma find_nat_bound (sub s : string) (n : nat) :
  find_nat sub s = Some n → (n ≤ String.length s)%nat.
Proof.
  revert n. induction s as [|c s IH]; intros n.
  - simpl. destruct (startswith sub ""); [|done]. intros [= <-]. lia.
  - cbn [find_nat]. destruct (startswith sub (String c s)).
    + intros [= <-]. lia.
    + destruct (find_nat sub s) as [m|]; [|done]. intros [= <-].
      specialize (IH m eq_refl). simpl. lia.
Qed.

Lemma find_nat_zero (sub s : string) :
  find_nat sub s = Some 0%nat → startswith sub s = true.
Proof. intros H. by apply find_nat_startswith in H. Qed.

Lemma length_lower (s : string) : String.length (lower s) = String.length s.
Proof. induction s as [|c s IH]; [done|]. simpl. by rewrite IH. Qed.

Lemma lower_str_drop (n : nat) (s : string) :
  lower (str_drop n s) = str_drop n (lower s).
Proof.
  revert s. induction n as [|n IH]; intros [|c s]; simpl; by try done.
Qed.

Lemma bound_of_nat (len n : nat) : (n ≤ len)%nat → bound len (Z.of_nat n) = n.
Proof.
  intros H. unfold bound. destruct (Z.ltb_spec (Z.of_nat n) 0); [lia|].
  rewrite Nat2Z.id. lia.
Qed.

(** A found phrase starts the lower-cased snippet. *)
Lemma snippet_starts_with (ocr_text marker : string) :
  find (lower ocr_text) marker ≠ -1 →
  startswith marker (lower (slice_from ocr_text (find (lower ocr_text) marker))) = true.
Proof.
  intros (n & Hn & ->)%find_found. unfold slice_from.
  rewrite bound_of_nat
    by (rewrite <- length_lower; by eapply find_nat_bound).
  rewrite lower_str_drop. by apply find_nat_startswith.
Qed.

Lemma scan_markers_offset (ms : list string) (ocr_text text_lower : string) :
  scan_markers ms ocr_text text_lower
  = match Spec.marker_offset ms text_lower with
    | Some idx => cut_snippet (slice_from ocr_text idx)
    | None => ""
    end.
Proof.
  induction ms as [|m ms IH]; [done|]. simpl. by case_decide.
Qed.

Lemma marker_offset_found (ms : list string) (text_lower : string) (idx : Z) :
  Spec.marker_offset ms text_lower = Some idx →
  ∃ m, m ∈ ms ∧ find text_lower m = idx ∧ idx ≠ -1.
Proof.
  induction ms as [|m ms IH]; [done|]. simpl. case_decide as Hm.
  - intros [= <-]. exists m. split; [left | done].
  - intros (m' & ? & ? & ?)%IH. exists m'. split; [by right | done].
Qed.

(** Every marker phrase starts with an [i], no stop token does: a stop
    token is never found at the start of the snippet. *)
Lemma marker_starts_i (m s : string) :
  m ∈ markers → startswith m s = true → ∃ r, s = String "i" r.
Proof.
  unfold markers. rewrite !elem_of_cons, elem_of_nil.
  intros [->|[->|[->|[]]]]; destruct s as [|c r]; simpl; try done;
    case_decide; try done; subst; eauto.
Qed.

Lemma stop_not_at_start (t r : string) :
  t ∈ stop_tokens → startswith t (String "i" r) = false.
Proof.
  unfold stop_tokens. rewrite !elem_of_cons, elem_of_nil.
  by intros [->|[->|[->|[->|[]]]]].
Qed.

Lemma find_stop_in (toks : list string) (sl : string) (si : Z) :
  find_stop toks sl = Some si → ∃ t, t ∈ toks ∧ find sl t = si ∧ si ≠ -1.
Proof.
  induction toks as [|t ts IH]; [done|]. simpl. case_decide as Ht.
  - intros [= <-]. exists t. split; [left | done].
  - intros (u & ? & ? & ?)%IH. exists u. split; [by right | done].
Qed.

Lemma find_stop_none (toks : list string) (sl : string) :
  (∀ t, t ∈ toks → find sl t = -1) → find_stop toks sl = None.
Proof.
  induction toks as [|t ts IH]; [done|]. intros H. simpl.
  rewrite decide_False by (intros Hne; apply Hne, H; left).
  apply IH. intros u Hu. apply H. by right.
Qed.

Lemma find_stop_priority (pre post : list string) (t sl : string) :
  (∀ u, u ∈ pre → find sl u = -1) → find sl t ≠ -1 →
  find_stop (pre ++ t :: post)%list sl = Some (find sl t).
Proof.
  induction pre as [|u pre IH]; intros Hpre Ht; simpl.
  - by rewrite decide_True.
  - rewrite decide_False by (intros Hne; apply Hne, Hpre; left).
    apply IH; [|done]. intros v Hv. apply Hpre. by right.
Qed.

Lemma str_take_truthy (n : nat) (s : string) :
  (0 < n)%nat → truthy s = true → truthy (str_take n s) = true.
Proof. destruct n, s; simpl; try done. lia. Qed.

(** The snippet of a found marker is never cut down to nothing. *)
Lemma cut_snippet_truthy (snippet : string) (m : string) :
  m ∈ markers → startswith m (lower snippet) = true →
  truthy (cut_snippet snippet) = true.
Proof.
  intros Hm Hs. destruct (marker_starts_i _ _ Hm Hs) as [r Hr].
  assert (truthy snippet = true) as Hne by (by destruct snippet).
  unfold cut_snippet.
  destruct (find_stop stop_tokens (lower snippet)) as [si|] eqn:E; [|done].
  apply find_stop_in in E as (t & Ht & <- & Hsi).
  apply find_found in Hsi as (n & Hn & ->).
  unfold slice_to. rewrite bound_of_nat
    by (rewrite <- length_lower; by eapply find_nat_bound).
  apply str_take_truthy; [|done].
  destruct n as [|n]; [|lia]. exfalso.
  apply find_nat_zero in Hn. rewrite Hr, stop_not_at_start in Hn; done.
Qed.

(** With a marker in the text, the ingredients text is the cut snippet
    that starts at the offset of the first marker of the list that
    occurs. *)
Lemma ingredients_text_of_marker (ocr_text : string) (idx : Z) :
  Spec.marker_offset markers (lower ocr_text) = Some idx →
  ingredients_text_of ocr_text = cut_snippet (slice_from ocr_text idx).
Proof.
  intros H. unfold ingredients_text_of. rewrite scan_markers_offset, H.
  apply marker_offset_found in H as (m & Hm & <- & Hidx).
  by rewrite (cut_snippet_truthy _ m Hm (snippet_starts_with _ _ Hidx)).
Qed.

End snippet.

(** C4, as the specification states it: the cut at the earliest terminator
    by position.  Here the double newline comes first, but the code cuts
    at "nutrition", which stands before it in its list. *)
Lemma earliest_terminator_not_used :
  let text := "ingredients: water" +:+ String "010" (String "010" "made in a nutrition lab") in
  Spec.marker_offset markers (lower text) = Some 0
  ∧ Spec.cut_at_earliest (slice_from text 0) = "ingredients: water"
  ∧ ingredients_text_of text
    = "ingredients: water" +:+ String "010" (String "010" "made in a ")
  ∧ ingredients_text_of text ≠ Spec.cut_at_earliest (slice_from text 0).
Proof. by vm_compute. Qed.

(** C4, amended: when a marker is found, the snippet that starts at it is
    cut at the first occurrence of the first terminator, in the order
    "nutritional", "nutrition", double newline, "typical values", that
    occurs in it; with no terminator in it the snippet runs to the end of
    the text. *)
Theorem snippet_cut_by_priority (ocr_text : string) (idx : Z) :
  Spec.marker_offset markers (lower ocr_text) = Some idx →
  let snippet := slice_from ocr_text idx in
  ((∀ t, t ∈ stop_tokens → find (lower snippet) t = -1) →
   ingredients_text_of ocr_text = snippet)
  ∧ (∀ pre t post,
       stop_tokens = (pre ++ t :: post)%list →
       (∀ u, u ∈ pre → find (lower snippet) u = -1) →
       find (lower snippet) t ≠ -1 →
       ingredients_text_of ocr_text = slice_to snippet (find (lower snippet) t)).
Proof.
  intros H snippet. rewrite (ingredients_text_of_marker _ _ H).
  fold snippet. unfold cut_snippet. split.
  - intros Hnone. by rewrite find_stop_none.
  - intros pre t post -> Hpre Ht. by rewrite find_stop_priority.
Qed.

Lemma snippet_cut_by_priority_witness :
  let text := "Best oats. Ingredients: Water, Sugar. Nutrition Facts per 100 g" in
  Spec.marker_offset markers (lower text) = Some 11
  ∧ ingredients_text_of text
    = slice_to (slice_from text 11) (find (lower (slice_from text 11)) "nutrition")
  ∧ ingredients_text_of text = "Ingredients: Water, Sugar. ".
Proof.
  intros text.
  assert (Spec.marker_offset markers (lower text) = Some 11) as H by (by vm_compute).
  split; [exact H|]. split; [|by vm_compute].
  apply (proj2 (snippet_cut_by_priority text 11 H) ["nutritional"] "nutrition"
           [String "010" (String "010" ""); "typical values"]).
  - done.
  - intros u ->%list_elem_of_singleton. by vm_compute.
  - by vm_compute.
Defined.

(** ** IngredientExtractor: the order of the markers *)

Section marker_order.

Lemma startswith_app (p q s : string) :
  startswith (p +:+ q) s = true → startswith p s = true.
Proof.
  revert s. induction p as [|a p IH]; intros s; [done|].
  change (String a p +:+ q) with (String a (p +:+ q)).
  destruct s as [|b s]; simpl; [done|]. case_decide; [apply IH | done].
Qed.

Lemma find_nat_app (p q s : string) :
  is_Some (find_nat (p +:+ q) s) → is_Some (find_nat p s).
Proof.
  induction s as [|c s IH].
  - simpl. destruct (startswith (p +:+ q) "") eqn:E; [|by intros [? [=]]].
    by rewrite (startswith_app _ _ _ E).
  - cbn [find_nat]. destruct (startswith (p +:+ q) (String c s)) eqn:E.
    + by rewrite (startswith_app _ _ _ E).
    + destruct (startswith p (String c s)); [done|].
      rewrite !fmap_is_Some. apply IH.
Qed.

Lemma find_app (p q s : string) :
  find s (p +:+ q) ≠ -1 → find s p ≠ -1.
Proof.
  intros (n & Hn & _)%find_found. unfold find.
  destruct (find_nat_app p q s) as [m ->]; [by rewrite Hn | lia].
Qed.

(** The phrase "ingredients as served" stands after "ingredients" in
    the list of the code, and every text that contains it contains
    "ingredients": the loop never gets to it. *)
Lemma served_marker_unreachable (text_lower : string) :
  Spec.marker_offset markers text_lower
  = Spec.marker_offset ["ingredients"; "ingredient"] text_lower.
Proof.
  unfold markers. cbn [Spec.marker_offset].
  destruct (decide (find text_lower "ingredients" ≠ -1)) as [|Hn]; [done|].
  rewrite (decide_False (P := find text_lower "ingredients as served" ≠ -1)); [done|].
  intros H. apply Hn. by apply (find_app "ingredients" " as served").
Qed.

End marker_order.

(** C5, on the code: on a label that has both "Ingredients:" and
    "Ingredients as served:", the snippet starts at the first
    "ingredients" (offset 0), not at "ingredients as served" (offset 19)
    as the order of the specification gives it; on every text the marker
    "ingredients as served" is never the one that is used. *)
Theorem served_marker_never_wins :
  (let text := "Ingredients: oats. Ingredients as served: oats, milk" in
   find (lower text) "ingredients as served" = 19
   ∧ Spec.marker_offset Spec.markers_in_spec_order (lower text) = Some 19
   ∧ Spec.marker_offset markers (lower text) = Some 0
   ∧ ingredients_text_of text = text
   ∧ scan_markers Spec.markers_in_spec_order text (lower text)
     = "Ingredients as served: oats, milk")
  ∧ (∀ ocr_text,
       scan_markers markers ocr_text (lower ocr_text)
       = scan_markers ["ingredients"; "ingredient"] ocr_text (lower ocr_text)).
Proof.
  split; [by vm_compute|].
  intros ocr_text. by rewrite !scan_markers_offset, served_marker_unreachable.
Qed.

(** ** ImageLoader *)

Section image_loader.

Lemma bind_Ok {A B} (m : result A) (k : A → result B) (v : B) :
  m ≫= k = Ok v → ∃ a, m = Ok a ∧ k a = Ok v.
Proof. destruct m as [a|e]; [by exists a | done]. Qed.


End image_loader.




(** ** VariantSelector: the loops of [test_ocr.py] *)

Section selector.
Import TestOcr.
Context (L : Libraries).

Lemma score_text_nonneg (txt : string) : 0 ≤ score_text txt.
Proof. unfold score_text. destruct (truthy txt); lia. Qed.

Lemma score_text_empty : score_text "" = 0.
Proof. done. Qed.

(** The loop over the modes keeps the greatest of the three scores. *)
Lemma best_of_modes_score (img : Bitmap) :
  (best_of_modes L img psm_modes).1
  = Z.max (score_text (attempt L img "--psm 6"))
          (Z.max (score_text (attempt L img "--psm 3"))
                 (score_text (attempt L img "--psm 11"))).
Proof.
  unfold best_of_modes, psm_modes. cbn [foldl].
  pose proof (score_text_nonneg (attempt L img "--psm 6")).
  pose proof (score_text_nonneg (attempt L img "--psm 3")).
  pose proof (score_text_nonneg (attempt L img "--psm 11")).
  repeat (case_decide; cbn [fst]); lia.
Qed.

(** No mode scores more than what the loop keeps. *)
Lemma best_of_modes_bound (img : Bitmap) (psm : string) :
  psm ∈ psm_modes →
  score_text (attempt L img psm) ≤ (best_of_modes L img psm_modes).1.
Proof.
  rewrite best_of_modes_score. unfold psm_modes.
  rewrite !elem_of_cons, elem_of_nil. intros [->|[->|[->|[]]]]; lia.
Qed.

(** What the loop keeps is the attempt of one of the modes. *)
Lemma best_of_modes_attained (img : Bitmap) :
  ∃ psm, psm ∈ psm_modes
         ∧ best_of_modes L img psm_modes
           = (score_text (attempt L img psm), attempt L img psm).
Proof.
  unfold best_of_modes, psm_modes. cbn [foldl].
  pose proof (score_text_nonneg (attempt L img "--psm 6")).
  rewrite decide_True by lia.
  destruct (decide (score_text (attempt L img "--psm 6")
                    < score_text (attempt L img "--psm 3"))) as [H3|H3];
    case_decide as H11.
  - exists "--psm 11". split; [|done]. rewrite !elem_of_cons; auto.
  - exists "--psm 3". split; [|done]. rewrite !elem_of_cons; auto.
  - exists "--psm 11". split; [|done]. rewrite !elem_of_cons; auto.
  - exists "--psm 6". split; [|done]. rewrite !elem_of_cons; auto.
Qed.

(** Every entry of the results is that of a variant. *)
Lemma run_variants_entry (variants : dict Bitmap) (entry : Entry) :
  entry ∈ run_variants L variants →
  ∃ nm img, (nm, img) ∈ variants ∧ name entry = nm
            ∧ best_of_modes L img psm_modes = (score entry, text entry).
Proof.
  unfold run_variants. intros ([nm img] & -> & Hin)%list_elem_of_fmap.
  exists nm, img. split; [done|].
  by destruct (best_of_modes L img psm_modes).
Qed.

Lemma run_variants_names (variants : dict Bitmap) :
  name <$> run_variants L variants = variants.*1.
Proof.
  unfold run_variants. rewrite <- list_fmap_compose.
  apply list_fmap_ext. intros i [nm img] _. simpl.
  by destruct (best_of_modes L img psm_modes).
Qed.

Lemma run_variants_lookup (variants : dict Bitmap) (i : nat) nm img :
  variants !! i = Some (nm, img) →
  ∃ entry, run_variants L variants !! i = Some entry
           ∧ name entry = nm
           ∧ score entry = (best_of_modes L img psm_modes).1.
Proof.
  unfold dict in *. intros H. unfold run_variants.
  rewrite list_lookup_fmap, H. simpl.
  destruct (best_of_modes L img psm_modes) as [sc txt]. by eexists.
Qed.

Lemma insert_desc_perm (r : Entry) (l : list Entry) : insert_desc r l ≡ₚ r :: l.
Proof.
  induction l as [|x l IH]; [done|]. simpl. case_decide; [|done].
  rewrite IH. apply Permutation_swap.
Qed.

Lemma sorted_desc_perm (l : list Entry) : sorted_desc l ≡ₚ l.
Proof.
  induction l as [|x l IH]; [done|]. simpl.
  by rewrite insert_desc_perm, IH.
Qed.

Lemma insert_desc_sorted (r : Entry) (l : list Entry) :
  StronglySorted (λ a b, score b ≤ score a) l →
  StronglySorted (λ a b, score b ≤ score a) (insert_desc r l).
Proof.
  induction 1 as [|x l Hl IH Hx]; simpl; [repeat constructor|].
  case_decide as Hr.
  - constructor; [done|]. rewrite insert_desc_perm. constructor; [lia | done].
  - constructor; [by constructor|]. constructor; [lia|].
    eapply Forall_impl; [exact Hx|]. simpl. intros; lia.
Qed.

Lemma sorted_desc_sorted (l : list Entry) :
  StronglySorted (λ a b, score b ≤ score a) (sorted_desc l).
Proof.
  induction l as [|x l IH]; [constructor|]. by apply insert_desc_sorted.
Qed.

(** The head of the sorted results has the greatest score. *)
Lemma sorted_desc_head (l : list Entry) (e : Entry) :
  e ∈ l → ∃ best, head (sorted_desc l) = Some best ∧ score e ≤ score best.
Proof.
  intros He. rewrite <- sorted_desc_perm in He.
  pose proof (sorted_desc_sorted l) as Hs.
  destruct (sorted_desc l) as [|b rest]; [by apply elem_of_nil in He|].
  exists b. split; [done|]. apply elem_of_cons in He as [->|He]; [lia|].
  apply StronglySorted_inv in Hs as [_ Hb].
  by apply (proj1 (Forall_forall _ _) Hb).
Qed.

Lemma dict_get_set {V} (k k' : string) (v : V) (d : dict V) :
  is_Some (dict_get k d) → is_Some (dict_get k (dict_set k' v d)).
Proof.
  induction d as [|[k0 v0] d IH]; simpl; [by intros [? [=]]|].
  destruct (decide (k0 = k')) as [->|Hne]; simpl.
  - by destruct (decide (k' = k)).
  - by destruct (decide (k0 = k)).
Qed.

Lemma dict_get_set_same {V} (k : string) (v : V) (d : dict V) :
  is_Some (dict_get k (dict_set k v d)).
Proof.
  induction d as [|[k0 v0] d IH]; simpl; [by rewrite decide_True|].
  destruct (decide (k0 = k)) as [->|Hne]; simpl.
  - by rewrite decide_True.
  - by rewrite decide_False.
Qed.

Lemma dict_get_lookup {V} (k : string) (v : V) (d : dict V) :
  dict_get k d = Some v → ∃ i, d !! i = Some (k, v).
Proof.
  induction d as [|[k0 v0] d IH]; simpl; [done|].
  destruct (decide (k0 = k)) as [->|Hne].
  - intros [= ->]. by exists 0%nat.
  - intros [i Hi]%IH. by exists (S i).
Qed.

Lemma to_bgr_all_keeps (items : list (string * Bitmap)) (d d' : dict Bitmap) k :
  to_bgr_all L items d = Ok d' → is_Some (dict_get k d) → is_Some (dict_get k d').
Proof.
  revert d. induction items as [|[k0 v0] items IH]; intros d; simpl.
  - by intros [= <-].
  - case_decide as Hshape; [|apply IH].
    intros (v' & _ & Hrest)%bind_Ok Hk. apply (IH _ Hrest). by apply dict_get_set.
Qed.

(** Variant A is always among the variants. *)
Lemma preprocess_variants_adaptive (img_pil : Picture) (variants : dict Bitmap) :
  preprocess_variants L img_pil = Ok variants →
  is_Some (dict_get "adaptive_thresh" variants).
Proof.
  unfold preprocess_variants. intros H.
  repeat (apply bind_Ok in H as (? & _ & H); cbv beta zeta in H;
          try match type of H with
              | (let '(_, _) := ?x in _) = _ => destruct x; cbv beta iota zeta in H
              end).
  eapply to_bgr_all_keeps; [exact H|].
  do 5 apply dict_get_set. apply dict_get_set_same.
Qed.

End selector.

(** C3, as the specification states it: a failure of the OCR engine never
    ends the request.  In [predict], which runs one combination only, it
    does: the response is "tesseract failed" with status 500. *)
Lemma ocr_failure_ends_request :
  let L := Sample.libraries Sample.broken in
  (∃ th, (img_bgr ← App.load_image L Sample.codec_data; App.preprocess L img_bgr) = Ok th
         ∧ App.run_ocr L th = Raise "tesseract is not installed")
  ∧ App.predict L (Sample.upload Sample.codec_data) Missing
    = TesseractFailed "tesseract is not installed"
  ∧ status (App.predict L (Sample.upload Sample.codec_data) Missing) = 500.
Proof.
  intros L. split; [|split]; [|by vm_compute..].
  eexists. split; by vm_compute.
Qed.

(** C3, amended: in the loops of [test_ocr.py], a failure of the engine on
    one (variant, mode) combination is caught and counts as the empty text
    with score 0; every variant still gets its entry, with the best score
    over the three modes.  In [predict], which runs a single combination,
    a failure of the engine ends the request with the response "tesseract
    failed", status 500. *)
Theorem ocr_failure_handling (L : Libraries) :
  (∀ img psm e,
     TestOcr.ocr_image_cv L img psm = Raise e →
     TestOcr.attempt L img psm = ""
     ∧ TestOcr.score_text (TestOcr.attempt L img psm) = 0)
  ∧ (∀ (variants : list (string * Bitmap)) i nm img,
       variants !! i = Some (nm, img) →
       ∃ entry, TestOcr.run_variants L variants !! i = Some entry
                ∧ TestOcr.name entry = nm
                ∧ TestOcr.score entry
                  = Z.max (TestOcr.score_text (TestOcr.attempt L img "--psm 6"))
                          (Z.max (TestOcr.score_text (TestOcr.attempt L img "--psm 3"))
                                 (TestOcr.score_text (TestOcr.attempt L img "--psm 11"))))
  ∧ (∀ variants, length (TestOcr.run_variants L variants) = length variants)
  ∧ (∀ files file csv th e,
       App.pick_file files = Some file →
       (img_bgr ← App.load_image L (App.content file); App.preprocess L img_bgr) = Ok th →
       App.run_ocr L th = Raise e →
       App.predict L files csv = TesseractFailed e
       ∧ status (App.predict L files csv) = 500).
Proof.
  split; [|split; [|split]].
  - intros img psm e H. unfold TestOcr.attempt. by rewrite H.
  - intros variants i nm img H.
    destruct (run_variants_lookup L variants i nm img H) as (entry & ? & ? & Hs).
    exists entry. by rewrite Hs, best_of_modes_score.
  - intros variants. unfold TestOcr.run_variants. apply length_fmap.
  - intros files file csv th e Hf Hth He.
    assert (App.predict L files csv = TesseractFailed e) as ->; [|done].
    unfold App.predict. by rewrite Hf, Hth, He.
Qed.

Lemma ocr_failure_handling_witness :
  let flaky := Sample.libraries (Sample.flaky "Ingredients: milk, sugar") in
  let img := {| shape := [2; 2; 3]%nat; pixels := [] |} in
  (TestOcr.ocr_image_cv flaky img "--psm 6" = Raise "tesseract timed out"
   ∧ TestOcr.attempt flaky img "--psm 6" = ""
   ∧ TestOcr.score_text (TestOcr.attempt flaky img "--psm 6") = 0)
  ∧ (∃ entry, TestOcr.run_variants flaky [("adaptive_thresh", img)] !! 0%nat = Some entry
              ∧ TestOcr.name entry = "adaptive_thresh"
              ∧ TestOcr.score entry = 3)
  ∧ App.predict (Sample.libraries Sample.broken) (Sample.upload Sample.codec_data) Missing
    = TesseractFailed "tesseract is not installed".
Proof.
  intros flaky img. split; [|split].
  - split; [by vm_compute|].
    apply (proj1 (ocr_failure_handling flaky) img "--psm 6" "tesseract timed out").
    by vm_compute.
  - destruct (proj1 (proj2 (ocr_failure_handling flaky))
                [("adaptive_thresh", img)] 0%nat "adaptive_thresh" img eq_refl)
      as (entry & H1 & H2 & H3).
    exists entry. split; [done|]. split; [done|]. rewrite H3. by vm_compute.
  - eapply (proj2 (proj2 (proj2 (ocr_failure_handling (Sample.libraries Sample.broken))))).
    + by vm_compute.
    + by vm_compute.
    + by vm_compute.
Defined.

(** C7, as the specification states it: the selected result never scores
    below the default single pipeline run alone on the same image.  The
    selector runs its own variants under [--oem 1] and never the
    pipeline of [predict]: with an engine that reads the label under the
    configuration of [predict] only, the default pipeline scores 3 and
    the selected result 0. *)
Lemma default_pipeline_beats_selector :
  let L := Sample.libraries (Sample.picky "Ingredients: milk, sugar") in
  Spec.default_pipeline_score L Sample.pillow_data = Ok 3
  ∧ ∃ best, TestOcr.best_result L Sample.pillow_data = Ok (Some best)
            ∧ TestOcr.score best = 0
            ∧ ¬ (3 ≤ TestOcr.score best).
Proof.
  intros L. split; [by vm_compute|].
  eexists. split; [by vm_compute|]. split; [done|]. simpl. lia.
Qed.

(** C7, amended: whenever the experiment returns, the selected result is
    one of the selector's own attempts, a variant under one of the three
    modes, and no attempt of any variant under any of the three modes
    scores more; so it scores at least as much as the
    adaptive-threshold variant under each mode.  Nothing relates it to
    the pipeline of [predict]. *)
Theorem selector_picks_best_attempt (L : Libraries) (data : bytes)
    (results : list TestOcr.Entry) :
  TestOcr.main L data = Ok results →
  ∃ pil variants best,
    TestOcr.load_image L data = Ok pil
    ∧ TestOcr.preprocess_variants L pil = Ok variants
    ∧ head results = Some best
    ∧ TestOcr.best_result L data = Ok (Some best)
    ∧ (∃ nm img psm,
         (nm, img) ∈ variants ∧ psm ∈ TestOcr.psm_modes
         ∧ TestOcr.name best = nm
         ∧ TestOcr.text best = TestOcr.attempt L img psm
         ∧ TestOcr.score best = TestOcr.score_text (TestOcr.attempt L img psm))
    ∧ (∀ nm img psm,
         (nm, img) ∈ variants → psm ∈ TestOcr.psm_modes →
         TestOcr.score_text (TestOcr.attempt L img psm) ≤ TestOcr.score best)
    ∧ (∃ a, TestOcr.dict_get "adaptive_thresh" variants = Some a
            ∧ ∀ psm, psm ∈ TestOcr.psm_modes →
                TestOcr.score_text (TestOcr.attempt L a psm) ≤ TestOcr.score best).
Proof.
  intros H. unfold TestOcr.best_result. rewrite H. unfold TestOcr.main in H.
  apply bind_Ok in H as (pil & Hpil & H).
  apply bind_Ok in H as (variants & Hv & [= <-]).
  destruct (preprocess_variants_adaptive L pil variants Hv) as [a Ha].
  assert (∃ best, head (TestOcr.sorted_desc (TestOcr.run_variants L variants)) = Some best
            ∧ ∀ entry, entry ∈ TestOcr.run_variants L variants →
                TestOcr.score entry ≤ TestOcr.score best) as (best & Hbest & Hmax).
  { pose proof Ha as [i Hi]%dict_get_lookup.
    destruct (run_variants_lookup L variants i _ _ Hi) as (entry & He & _).
    apply list_elem_of_lookup_2 in He.
    destruct (sorted_desc_head _ entry He) as (best & Hbest & _).
    exists best. split; [done|]. intros entry' He'.
    destruct (sorted_desc_head _ entry' He') as (best' & Hbest' & Hle).
    rewrite Hbest in Hbest'. by injection Hbest' as <-. }
  assert (∀ nm img psm,
            (nm, img) ∈ variants → psm ∈ TestOcr.psm_modes →
            TestOcr.score_text (TestOcr.attempt L img psm) ≤ TestOcr.score best) as Hall.
  { intros nm img psm [i Hi]%list_elem_of_lookup_1 Hpsm.
    destruct (run_variants_lookup L variants i _ _ Hi) as (entry & He & _ & Hs).
    apply list_elem_of_lookup_2, Hmax in He.
    pose proof (best_of_modes_bound L img psm Hpsm). lia. }
  exists pil, variants, best.
  split; [done|]. split; [done|]. split; [done|].
  split; [change (Ok (head (TestOcr.sorted_desc (TestOcr.run_variants L variants)))
                 = Ok (Some best)); by rewrite Hbest|].
  split; [|split; [done|]].
  - assert (best ∈ TestOcr.run_variants L variants) as Hin.
    { rewrite <- sorted_desc_perm. by apply head_Some_elem_of. }
    apply run_variants_entry in Hin as (nm & img & Hin & Hnm & Hpair).
    destruct (best_of_modes_attained L img) as (psm & Hpsm & Hatt).
    rewrite Hatt in Hpair. injection Hpair as Hs Ht.
    by exists nm, img, psm.
  - exists a. split; [done|]. intros psm Hpsm.
    apply dict_get_lookup in Ha as [i Hi].
    by eapply Hall; [eapply list_elem_of_lookup_2|].
Qed.

Lemma selector_picks_best_attempt_witness :
  let L := Sample.libraries (Sample.flaky "Ingredients: milk, sugar") in
  ∃ results pil variants best,
    TestOcr.main L Sample.pillow_data = Ok results
    ∧ TestOcr.load_image L Sample.pillow_data = Ok pil
    ∧ TestOcr.preprocess_variants L pil = Ok variants
    ∧ head results = Some best
    ∧ TestOcr.score best = 3
    ∧ (∀ nm img psm,
         (nm, img) ∈ variants → psm ∈ TestOcr.psm_modes →
         TestOcr.score_text (TestOcr.attempt L img psm) ≤ TestOcr.score best).
Proof.
  intros L.
  assert (∃ results, TestOcr.main L Sample.pillow_data = Ok results) as [results Hr].
  { eexists. by vm_compute. }
  destruct (selector_picks_best_attempt L Sample.pillow_data results Hr)
    as (pil & variants & best & Hpil & Hv & Hhead & _ & _ & Hall & _).
  exists results, pil, variants, best.
  split; [done|]. split; [done|]. split; [done|]. split; [done|]. split; [|done].
  vm_compute in Hr. injection Hr as <-. by injection Hhead as <-.
Defined.

(** * Further properties of the code *)

(** ** The upload *)

Section upload.

Lemma pick_file_none (files : gmap string App.FileStorage) :
  App.pick_file files = None ↔
  (∀ key f, key ∈ ["file"; "image"] → files !! key = Some f → App.filename f = "").
Proof.
  unfold App.pick_file. split.
  - intros H key f Hkey Hf.
    apply elem_of_cons in Hkey as [->|Hkey];
      [|apply list_elem_of_singleton in Hkey as ->]; rewrite Hf in H;
      destruct (App.filename f) eqn:E; try done; simpl in H; try done.
    by destruct (files !! "file") as [g|]; [destruct (truthy (App.filename g))|].
  - intros H.
    assert (∀ key, key ∈ ["file"; "image"] →
              match files !! key with
              | Some f => if truthy (App.filename f) then Some f else None
              | None => None
              end = None) as Hk.
    { intros key Hkey. destruct (files !! key) as [f|] eqn:E; [|done].
      by rewrite (H key f Hkey E). }
    rewrite (Hk "file") by (rewrite !elem_of_cons; auto).
    apply Hk. rewrite !elem_of_cons; auto.
Qed.

End upload.

(** X1: the handler answers "no file uploaded" (status 400) exactly when
    neither the field [file] nor the field [image] holds an upload with a
    file name; an upload under [file] that has a name is the one that is
    used, whatever [image] holds. *)
Theorem no_upload_response (L : Libraries) (files : gmap string App.FileStorage)
    (csv : CsvFile) :
  (App.predict L files csv = NoFile ↔
   (∀ key f, key ∈ ["file"; "image"] → files !! key = Some f → App.filename f = ""))
  ∧ (status (App.predict L files csv) = 400 ↔ App.predict L files csv = NoFile)
  ∧ (∀ f, files !! "file" = Some f → App.filename f ≠ "" →
       App.pick_file files = Some f).
Proof.
  split; [|split].
  - rewrite <- pick_file_none. unfold App.predict.
    destruct (App.pick_file files) as [file|]; [|done].
    split; [|done].
    destruct (_ ≫= _) as [th|e]; [|done].
    destruct (App.run_ocr L th) as [ocr|e]; [|done].
    unfold respond. by destruct (health_of _ _).
  - split; [|by intros ->].
    by destruct (App.predict L files csv).
  - intros f Hf Hn. unfold App.pick_file. rewrite Hf.
    by destruct (App.filename f).
Qed.

Lemma no_upload_response_witness :
  App.pick_file (<[ "image" := {| App.filename := "b.png"; App.content := [] |} ]>
                   (Sample.upload Sample.codec_data))
  = Some {| App.filename := "label.jpg"; App.content := Sample.codec_data |}.
Proof.
  apply (proj2 (proj2 (no_upload_response (Sample.libraries Sample.broken)
           (<[ "image" := {| App.filename := "b.png"; App.content := [] |} ]>
              (Sample.upload Sample.codec_data)) Missing))).
  - by vm_compute.
  - done.
Defined.

(** ** The ingredients text *)

Section ingredients_text.

Lemma find_not_found_app (p q s : string) :
  find s p = -1 → find s (p +:+ q) = -1.
Proof.
  intros H. destruct (decide (find s (p +:+ q) = -1)) as [|Hn]; [done|].
  by apply find_app in Hn.
Qed.

Lemma marker_offset_none (text_lower : string) :
  Spec.marker_offset markers text_lower = None ↔ find text_lower "ingredient" = -1.
Proof.
  unfold markers. cbn [Spec.marker_offset]. split.
  - by repeat case_decide.
  - intros H.
    rewrite (decide_False (P := find text_lower "ingredients" ≠ -1))
      by (intros Hn; apply Hn; by apply (find_not_found_app "ingredient" "s")).
    rewrite (decide_False (P := find text_lower "ingredients as served" ≠ -1))
      by (intros Hn; apply Hn; by apply (find_not_found_app "ingredient" "s as served")).
    by rewrite decide_False by (by intros Hn).
Qed.

Lemma str_take_drop (n : nat) (s : string) : str_take n s +:+ str_drop n s = s.
Proof.
  revert s. induction n as [|n IH]; intros [|c s]; try done.
  change (String c (str_take n s +:+ str_drop n s) = String c s). by rewrite IH.
Qed.

Lemma app_assoc_string (a b c : string) : (a +:+ b) +:+ c = a +:+ (b +:+ c).
Proof.
  induction a as [|x a IH]; [done|].
  change (String x ((a +:+ b) +:+ c) = String x (a +:+ (b +:+ c))). by rewrite IH.
Qed.

Lemma string_app_nil_r (s : string) : s +:+ "" = s.
Proof.
  induction s as [|c s IH]; [done|].
  change (String c (s +:+ "") = String c s). by rewrite IH.
Qed.

Lemma cut_snippet_prefix (snippet : string) :
  ∃ post, snippet = cut_snippet snippet +:+ post.
Proof.
  unfold cut_snippet. destruct (find_stop _ _) as [si|].
  - eexists. unfold slice_to. symmetry. apply str_take_drop.
  - exists "". by rewrite string_app_nil_r.
Qed.

Lemma scan_markers_part (ms : list string) (ocr_text text_lower : string) :
  ∃ pre post, ocr_text = pre +:+ scan_markers ms ocr_text text_lower +:+ post.
Proof.
  rewrite scan_markers_offset. destruct (Spec.marker_offset _ _) as [idx|].
  - destruct (cut_snippet_prefix (slice_from ocr_text idx)) as [post Hpost].
    exists (str_take (bound (String.length ocr_text) idx) ocr_text), post.
    rewrite <- Hpost. unfold slice_from. symmetry. apply str_take_drop.
  - by exists "", ocr_text.
Qed.

End ingredients_text.

(** X2: a text in which "ingredient" does not occur, in any letter case,
    is taken whole as the ingredients text; and that is the only case in
    which no marker is found. *)
Theorem no_marker_whole_text (ocr_text : string) :
  (find (lower ocr_text) "ingredient" = -1 → ingredients_text_of ocr_text = ocr_text)
  ∧ (Spec.marker_offset markers (lower ocr_text) = None
     ↔ find (lower ocr_text) "ingredient" = -1).
Proof.
  split; [|apply marker_offset_none].
  intros H%marker_offset_none. unfold ingredients_text_of.
  by rewrite scan_markers_offset, H.
Qed.

Lemma no_marker_whole_text_witness :
  ingredients_text_of "Water, Sugar. NUTRITION facts" = "Water, Sugar. NUTRITION facts".
Proof.
  apply (proj1 (no_marker_whole_text "Water, Sugar. NUTRITION facts")).
  by vm_compute.
Defined.

(** X3: the ingredients text is a contiguous part of the OCR text, in its
    original letter case, and it is empty only for the empty OCR text. *)
Theorem ingredients_text_part (ocr_text : string) :
  (∃ pre post, ocr_text = pre +:+ ingredients_text_of ocr_text +:+ post)
  ∧ (ingredients_text_of ocr_text = "" ↔ ocr_text = "").
Proof.
  unfold ingredients_text_of. split.
  - destruct (truthy _) eqn:E; [apply scan_markers_part|].
    exists "", "". change (ocr_text = ocr_text +:+ ""). by rewrite string_app_nil_r.
  - destruct (scan_markers markers ocr_text (lower ocr_text)) as [|c r] eqn:E; simpl.
    + done.
    + split; [done|]. intros ->. by vm_compute in E.
Qed.

(** ** The tokens, once more *)

Section token_parts.

Lemma part_cons (c : ascii) (t s : string) :
  (∃ pre post, s = pre +:+ t +:+ post) →
  ∃ pre post, String c s = pre +:+ t +:+ post.
Proof. intros (pre & post & ->). by exists (String c pre), post. Qed.

Lemma part_trans (t u s : string) :
  (∃ pre post, u = pre +:+ t +:+ post) → (∃ pre post, s = pre +:+ u +:+ post) →
  ∃ pre post, s = pre +:+ t +:+ post.
Proof.
  intros (p1 & q1 & ->) (p2 & q2 & ->). exists (p2 +:+ p1), (q1 +:+ q2).
  by rewrite !app_assoc_string.
Qed.

Lemma prefix_part (t post s : string) :
  s = t +:+ post → ∃ pre post, s = pre +:+ t +:+ post.
Proof. intros ->. by exists "", post. Qed.

Lemma lstrip_suffix (s : string) : ∃ pre, s = pre +:+ lstrip s.
Proof.
  induction s as [|c s [pre IH]]; [by exists ""|]. simpl.
  destruct (is_space c); [|by exists ""].
  exists (String c pre). change (String c s = String c (pre +:+ lstrip s)).
  by rewrite <- IH.
Qed.

Lemma rstrip_prefix (s : string) : ∃ post, s = rstrip s +:+ post.
Proof.
  induction s as [|c s [post IH]]; [by exists ""|]. simpl.
  destruct (rstrip s) as [|d r] eqn:E.
  - destruct (is_space c); [by exists (String c s) | by exists s].
  - exists post. change (String c s = String c (String d r +:+ post)). by rewrite <- IH.
Qed.

Lemma strip_part (s : string) : ∃ pre post, s = pre +:+ strip s +:+ post.
Proof.
  unfold strip. destruct (lstrip_suffix s) as [pre Hpre].
  destruct (rstrip_prefix (lstrip s)) as [post Hpost].
  exists pre, post. by rewrite <- Hpost.
Qed.

(** The block being read is a prefix of the text, the later blocks are
    parts of it. *)
Lemma pieces_parts (sep : ascii → bool) (s : string) :
  (∃ post, s = (pieces sep s).1 +:+ post)
  ∧ ∀ b, b ∈ (pieces sep s).2 → ∃ pre post, s = pre +:+ b +:+ post.
Proof.
  induction s as [|c s [[post Hw] Hws]]; [split; [by exists "" | by intros b ?%elem_of_nil]|].
  simpl. destruct (pieces sep s) as [w ws]. simpl in *.
  destruct (sep c); simpl.
  - split; [by exists (String c s)|]. intros b Hb. apply part_cons.
    unfold cons_nonempty in Hb. destruct (truthy w); [|by apply Hws].
    apply elem_of_cons in Hb as [->|Hb]; [by eapply prefix_part | by apply Hws].
  - split.
    + exists post. change (String c s = String c (w +:+ post)). by rewrite <- Hw.
    + intros b Hb. by apply part_cons, Hws.
Qed.

Lemma blocks_parts (sep : ascii → bool) (s b : string) :
  b ∈ blocks sep s → ∃ pre post, s = pre +:+ b +:+ post.
Proof.
  unfold blocks. destruct (pieces_parts sep s) as [[post Hw] Hws].
  destruct (pieces sep s) as [w ws]. simpl in *. unfold cons_nonempty.
  destruct (truthy w); [|apply Hws].
  intros [->|Hb]%elem_of_cons; [by eapply prefix_part | by apply Hws].
Qed.

Lemma all_chars_app (p : ascii → bool) (a b : string) :
  Spec.all_chars p (a +:+ b) = Spec.all_chars p a && Spec.all_chars p b.
Proof.
  induction a as [|c a IH]; [done|].
  change (p c && Spec.all_chars p (a +:+ b) = p c && Spec.all_chars p a && Spec.all_chars p b).
  rewrite IH. by destruct (p c).
Qed.

Lemma all_chars_part (p : ascii → bool) (t s : string) :
  (∃ pre post, s = pre +:+ t +:+ post) →
  Spec.all_chars p s = true → Spec.all_chars p t = true.
Proof.
  intros (pre & post & ->). rewrite !all_chars_app.
  by intros [_ [? _]%andb_prop]%andb_prop.
Qed.

(** No block holds a separator. *)
Lemma pieces_all_chars (sep : ascii → bool) (s : string) :
  Spec.all_chars (λ c, negb (sep c)) (pieces sep s).1 = true
  ∧ ∀ b, b ∈ (pieces sep s).2 → Spec.all_chars (λ c, negb (sep c)) b = true.
Proof.
  induction s as [|c s [Hw Hws]]; [split; [done | by intros b ?%elem_of_nil]|].
  simpl. destruct (pieces sep s) as [w ws]. simpl in *.
  destruct (sep c) eqn:Ec; simpl.
  - split; [done|]. intros b Hb. unfold cons_nonempty in Hb.
    destruct (truthy w); [|by apply Hws].
    apply elem_of_cons in Hb as [->|Hb]; [done | by apply Hws].
  - by rewrite Ec, Hw.
Qed.

Lemma blocks_all_chars (sep : ascii → bool) (s b : string) :
  b ∈ blocks sep s → Spec.all_chars (λ c, negb (sep c)) b = true.
Proof.
  unfold blocks. destruct (pieces_all_chars sep s) as [Hw Hws].
  destruct (pieces sep s) as [w ws]. simpl in *. unfold cons_nonempty.
  destruct (truthy w); [|apply Hws].
  intros [->|Hb]%elem_of_cons; [done | by apply Hws].
Qed.

End token_parts.

(** X4: every token stands in the ingredients text as it is (same
    characters, same letter case), and no token holds a comma, a semicolon
    or a newline. *)
Theorem token_is_part_of_text (text t : string) :
  t ∈ tokenize text →
  (∃ pre post, text = pre +:+ t +:+ post)
  ∧ Spec.all_chars (λ c, negb (is_sep c)) t = true.
Proof.
  rewrite tokenize_blocks. intros (_ & b & Hb & ->)%strip_nonempty_elem.
  pose proof (strip_part b) as Hpart. split.
  - eapply part_trans; [exact Hpart | by eapply blocks_parts].
  - eapply all_chars_part; [exact Hpart | by eapply blocks_all_chars].
Qed.

Lemma token_is_part_of_text_witness :
  (∃ pre post, "Water ; Oat Flour,Salt" = pre +:+ "Oat Flour" +:+ post)
  ∧ Spec.all_chars (λ c, negb (is_sep c)) "Oat Flour" = true.
Proof.
  apply (token_is_part_of_text "Water ; Oat Flour,Salt" "Oat Flour").
  by vm_compute; apply list_elem_of_In; simpl; auto.
Defined.

(** ** AllergenScorer, once more *)

Section scorer_more.

Lemma lower_char_idemp (c : ascii) : lower_char (lower_char c) = lower_char c.
Proof. by destruct c as [[] [] [] [] [] [] [] []]. Qed.

Lemma lower_idemp (s : string) : lower (lower s) = lower s.
Proof.
  induction s as [|c s IH]; [done|]. simpl. by rewrite lower_char_idemp, IH.
Qed.

Lemma table_allergens_lower (names tokens : list string) :
  table_allergens names (lower <$> tokens) = table_allergens names tokens.
Proof.
  unfold table_allergens. induction tokens as [|t ts IH]; [done|].
  rewrite fmap_cons, !bind_cons, IH. f_equal.
  unfold matching_names. by rewrite lower_idemp.
Qed.

Lemma collect_impacts_lower rows (tokens : list string) :
  collect_impacts rows (lower <$> tokens) = collect_impacts rows tokens.
Proof.
  induction tokens as [|t ts IH]; [done|].
  rewrite fmap_cons. cbn [collect_impacts]. rewrite IH.
  unfold matching_cells. by rewrite lower_idemp.
Qed.

Lemma fallback_allergens_lower (tokens : list string) :
  fallback_allergens (lower <$> tokens) = fallback_allergens tokens.
Proof.
  unfold fallback_allergens. induction tokens as [|t ts IH]; [done|].
  by rewrite fmap_cons, !bind_cons, IH, lower_idemp.
Qed.

Lemma bad_matches_lower (tokens : list string) :
  Spec.bad_matches (lower <$> tokens) = Spec.bad_matches tokens.
Proof.
  unfold Spec.bad_matches. f_equal. induction tokens as [|t ts IH]; [done|].
  by rewrite fmap_cons, !bind_cons, IH, lower_idemp.
Qed.

Lemma table_pass_lower (csv : CsvFile) (tokens : list string) :
  table_pass csv (lower <$> tokens) = table_pass csv tokens.
Proof.
  destruct csv as [| e | [names | rows]]; simpl; try done.
  - by rewrite table_allergens_lower.
  - by rewrite table_allergens_lower, collect_impacts_lower.
Qed.

Lemma allergen_scorer_lower (csv : CsvFile) (tokens : list string) :
  allergen_scorer csv (lower <$> tokens) = allergen_scorer csv tokens.
Proof.
  unfold allergen_scorer. rewrite table_pass_lower, fallback_allergens_lower.
  unfold fallback_score. by rewrite !penalty_of_matches, bad_matches_lower.
Qed.

Lemma table_allergens_elem (names tokens : list string) (x : string) :
  x ∈ table_allergens names tokens ↔
  x ∈ names ∧ ∃ t, t ∈ tokens ∧ contains (lower t) (lower x) = true.
Proof.
  unfold table_allergens, matching_names, row_matches.
  rewrite list_elem_of_bind. split.
  - intros (t & [Hm Hx]%list_elem_of_filter & Ht). split; [done|].
    exists t. split; [done | by apply Is_true_true].
  - intros (Hx & t & Ht & Hm). exists t. split; [|done].
    apply list_elem_of_filter. split; [by apply Is_true_true | done].
Qed.

Lemma fallback_allergens_elem (tokens : list string) (x : string) :
  x ∈ fallback_allergens tokens ↔
  x ∈ sample_allergens ∧ ∃ t, t ∈ tokens ∧ contains x (lower t) = true.
Proof.
  unfold fallback_allergens. rewrite list_elem_of_bind. split.
  - intros (t & [Hm Hx]%list_elem_of_filter & Ht). split; [done|].
    exists t. split; [done | by apply Is_true_true].
  - intros (Hx & t & Ht & Hm). exists t. split; [|done].
    apply list_elem_of_filter. split; [by apply Is_true_true | done].
Qed.

Lemma bad_matches_app (l l' : list string) :
  Spec.bad_matches (l ++ l')%list = (Spec.bad_matches l + Spec.bad_matches l')%nat.
Proof. unfold Spec.bad_matches. by rewrite bind_app, length_app. Qed.

Lemma bad_matches_perm (l l' : list string) :
  l ≡ₚ l' → Spec.bad_matches l = Spec.bad_matches l'.
Proof. intros H. unfold Spec.bad_matches. by rewrite H. Qed.

End scorer_more.

(** X5: the letter case of the tokens does not matter: lower-casing every
    token changes neither the allergens nor the health score. *)
Theorem scorer_ignores_token_case (csv : CsvFile) (tokens : list string) :
  allergens_of csv (lower <$> tokens) = allergens_of csv tokens
  ∧ health_of csv (lower <$> tokens) = health_of csv tokens.
Proof.
  unfold allergens_of, health_of. by rewrite allergen_scorer_lower.
Qed.

(** X6: when the reference table matches at least one token, the allergens
    are the matching entries of its first column as line 110 leaves it,
    and nothing else: the built-in allergen words are not looked at.
    Line 110 leaves the first column in the letter case of the file,
    unless that column is itself named [ingredient_lc]: then it is
    replaced by its lower-cased copy, and the allergens are reported in
    lower case. *)
Theorem table_matches_shadow_fallback (header : string) (file : Table)
    (tokens : list string) :
  let t := with_ingredient_lc header file in
  table_allergens (names_of t) tokens ≠ [] →
  (∀ x, x ∈ allergens_of (Loaded t) tokens ↔
        x ∈ names_of t ∧ ∃ tok, tok ∈ tokens ∧ contains (lower tok) (lower x) = true)
  ∧ (header ≠ "ingredient_lc" → names_of t = names_of file)
  ∧ (header = "ingredient_lc" →
     names_of t = lower <$> names_of file
     ∧ ∀ x, x ∈ allergens_of (Loaded t) tokens → lower x = x).
Proof.
  intros t Hne.
  assert (∀ x, x ∈ allergens_of (Loaded t) tokens ↔
               x ∈ names_of t
               ∧ ∃ tok, tok ∈ tokens ∧ contains (lower tok) (lower x) = true) as Hall.
  { intros x. unfold allergens_of.
    rewrite sorted_set_elem, allergen_scorer_found, table_pass_found.
    destruct (table_allergens (names_of t) tokens) as [|a l] eqn:E; [done|].
    rewrite <- E. apply table_allergens_elem. }
  split; [exact Hall|]. split.
  - intros Hh. unfold t, with_ingredient_lc. by rewrite decide_False.
  - intros Hh.
    assert (names_of t = lower <$> names_of file) as Hnames.
    { unfold t, with_ingredient_lc. rewrite decide_True by done.
      destruct file as [names|rows]; simpl; [done|].
      by rewrite <- !list_fmap_compose. }
    split; [exact Hnames|].
    intros x [Hx _]%Hall. rewrite Hnames in Hx.
    apply list_elem_of_fmap in Hx as (y & -> & _). apply lower_idemp.
Qed.

Lemma table_matches_shadow_fallback_witness :
  allergens_of (Loaded (with_ingredient_lc "ingredient" (NoImpact ["Sugar"; "Cocoa"])))
               ["milk"; "sugar"] = ["Sugar"]
  ∧ allergens_of (Loaded (with_ingredient_lc "ingredient_lc" (NoImpact ["Sugar"; "Cocoa"])))
                 ["milk"; "sugar"] = ["sugar"]
  ∧ ∀ x, x ∈ allergens_of
               (Loaded (with_ingredient_lc "ingredient_lc" (NoImpact ["Sugar"; "Cocoa"])))
               ["milk"; "sugar"] → lower x = x.
Proof.
  split; [by vm_compute|]. split; [by vm_compute|].
  apply (table_matches_shadow_fallback "ingredient_lc" (NoImpact ["Sugar"; "Cocoa"])
           ["milk"; "sugar"]); by vm_compute.
Defined.

(** X7: when the table is missing, unreadable or matches no token, the
    allergens are exactly the built-in allergen words that occur in some
    lower-cased token. *)
Theorem fallback_allergens_exact (csv : CsvFile) (tokens : list string) :
  (table_pass csv tokens).1 = [] →
  ∀ x, x ∈ allergens_of csv tokens ↔
       x ∈ sample_allergens ∧ ∃ tok, tok ∈ tokens ∧ contains x (lower tok) = true.
Proof.
  intros H x. unfold allergens_of.
  rewrite sorted_set_elem, allergen_scorer_found, H.
  apply fallback_allergens_elem.
Qed.

Lemma fallback_allergens_exact_witness :
  "egg" ∈ allergens_of (Loaded (NoImpact ["Sugar"; "Cocoa"])) ["Dried EGG yolk"; "salt"]
  ↔ "egg" ∈ sample_allergens
    ∧ ∃ tok, tok ∈ ["Dried EGG yolk"; "salt"] ∧ contains "egg" (lower tok) = true.
Proof.
  apply (fallback_allergens_exact (Loaded (NoImpact ["Sugar"; "Cocoa"]))
           ["Dried EGG yolk"; "salt"]).
  by vm_compute.
Defined.

(** X8: without an impact column the health score is 100 minus 5 for each
    match of a token with an undesirable word, not below 0.  So it is a
    multiple of 5, it is 100 exactly when nothing matches, more tokens
    never raise it, and the order of the tokens does not matter. *)
Theorem fallback_score_arithmetic (tokens : list string) :
  (∀ csv, (table_pass csv tokens).2 = None →
     health_of csv tokens = health_of Missing tokens)
  ∧ (∃ k, 0 ≤ k ≤ 20 ∧ health_of Missing tokens = Ok (5 * k))
  ∧ (health_of Missing tokens = Ok 100 ↔ Spec.bad_matches tokens = 0%nat)
  ∧ (∀ more h h', health_of Missing tokens = Ok h →
       health_of Missing (tokens ++ more)%list = Ok h' → h' ≤ h)
  ∧ (∀ tokens', tokens' ≡ₚ tokens →
       health_of Missing tokens' = health_of Missing tokens).
Proof.
  split; [|split; [|split; [|split]]].
  - intros csv H. by rewrite !health_of_fallback.
  - rewrite health_of_fallback by done.
    exists (Z.max 0 (20 - Z.of_nat (Spec.bad_matches tokens))).
    split; [lia | f_equal; lia].
  - rewrite health_of_fallback by done. split; [intros [= H]; lia | intros ->; done].
  - intros more h h'. rewrite !health_of_fallback, bad_matches_app by done.
    intros [= <-] [= <-]. lia.
  - intros tokens' Hp. rewrite !health_of_fallback by done.
    by rewrite (bad_matches_perm _ _ Hp).
Qed.

Lemma fallback_score_arithmetic_witness :
  health_of (Loaded (NoImpact ["Sugar"])) ["palm oil"; "sea salt"]
  = health_of Missing ["palm oil"; "sea salt"]
  ∧ health_of Missing ["palm oil"; "sea salt"] = Ok 90.
Proof.
  split; [|by vm_compute].
  apply (proj1 (fallback_score_arithmetic ["palm oil"; "sea salt"])
           (Loaded (NoImpact ["Sugar"]))).
  by vm_compute.
Defined.

(** ** The impact weights *)

Section impacts.

Lemma as_floats_Ok (cs : list cell) (fs : list float) :
  as_floats cs = Ok fs ↔ cs = Number <$> fs.
Proof.
  revert fs. induction cs as [|[f|t] cs IH]; intros fs; simpl.
  - split; [by intros [= <-] | by destruct fs].
  - destruct (as_floats cs) as [fs'|e] eqn:E.
    + split.
      * intros [= <-]. rewrite fmap_cons. f_equal. by apply IH.
      * destruct fs as [|f0 fs0]; [done|]. rewrite fmap_cons. intros [= -> H].
        apply IH in H as [= ->]. done.
    + split; [done|]. destruct fs as [|f0 fs0]; [done|]. rewrite fmap_cons.
      intros [= -> H]. by apply IH in H.
  - split; [done|]. by destruct fs.
Qed.

Lemma as_floats_raise (cs : list cell) (txt : string) :
  NotNumber txt ∈ cs → ∃ e, as_floats cs = Raise e.
Proof.
  induction cs as [|[f|t] cs IH]; simpl.
  - by intros ?%elem_of_nil.
  - intros [?|H]%elem_of_cons; [done|]. destruct (IH H) as [e ->]. by exists e.
  - intros _. by eexists.
Qed.

Lemma fmap_Number_inj (l l' : list float) :
  Number <$> l = Number <$> l' → l = l'.
Proof.
  revert l'. induction l as [|f l IH]; intros [|f' l']; try done.
  rewrite !fmap_cons. intros [= -> H]. f_equal. by apply IH.
Qed.

(** The impacts are those of the matching rows, token after token; a cell
    that is no number among them makes the loop raise. *)
Lemma collect_impacts_Ok rows (tokens : list string) (impacts : list float) :
  collect_impacts rows tokens = Ok impacts
  ↔ tokens ≫= matching_cells rows = Number <$> impacts.
Proof.
  revert impacts. induction tokens as [|t ts IH]; intros impacts.
  - simpl. split; [by intros [= <-] | by destruct impacts].
  - cbn [collect_impacts]. rewrite bind_cons.
    destruct (as_floats (matching_cells rows t)) as [fs|e] eqn:Efs.
    + apply as_floats_Ok in Efs.
      destruct (collect_impacts rows ts) as [rest|e] eqn:Er.
      * pose proof (proj1 (IH rest) eq_refl) as Hrest. rewrite Efs, Hrest, <- fmap_app.
        split; [by intros [= <-]|].
        intros H. f_equal. symmetry. by apply fmap_Number_inj.
      * split; [done|]. rewrite Efs. intros H. exfalso.
        assert (∃ rest, ts ≫= matching_cells rows = Number <$> rest) as [rest Hr].
        { exists (drop (length fs) impacts).
          rewrite fmap_drop, <- H, <- (length_fmap Number fs).
          by rewrite drop_app_length. }
        by apply IH in Hr.
    + split; [done|]. intros H. exfalso.
      assert (as_floats (matching_cells rows t) = Ok (take (length (matching_cells rows t)) impacts))
        as Hf; [|by rewrite Hf in Efs].
      apply as_floats_Ok. rewrite fmap_take, <- H. by rewrite take_app_length.
Qed.

Lemma collect_impacts_raise rows (tokens : list string) (t name txt : string) :
  t ∈ tokens → (name, NotNumber txt) ∈ rows → row_matches (lower t) name = true →
  ∃ e, collect_impacts rows tokens = Raise e.
Proof.
  intros Ht Hrow Hm.
  destruct (collect_impacts rows tokens) as [impacts|e] eqn:E; [|by exists e].
  exfalso. apply collect_impacts_Ok in E.
  assert (NotNumber txt ∈ tokens ≫= matching_cells rows) as Hin.
  { apply list_elem_of_bind. exists t. split; [|done].
    unfold matching_cells. apply list_elem_of_fmap. exists (name, NotNumber txt).
    split; [done|]. apply list_elem_of_filter. split; [by apply Is_true_true | done]. }
  rewrite E in Hin. by apply list_elem_of_fmap in Hin as (f & [=] & _).
Qed.

Lemma add_nan_l (a : float) : add NaN a = NaN.
Proof. by destruct a. Qed.

Lemma add_nan_r (a : float) : add a NaN = NaN.
Proof. by destruct a. Qed.

Lemma foldl_add_nan (l : list float) : foldl add NaN l = NaN.
Proof.
  induction l as [|f l IH]; [done|]. cbn [foldl]. by rewrite add_nan_l.
Qed.

Lemma sum_nan (l : list float) : NaN ∈ l → sum l = NaN.
Proof.
  unfold sum. generalize (of_int 0). induction l as [|f l IH]; intros a.
  - by intros ?%elem_of_nil.
  - intros [<-|H]%elem_of_cons; cbn [foldl].
    + by rewrite add_nan_r, foldl_add_nan.
    + by apply IH.
Qed.

Lemma health_of_impacts rows (tokens : list string) (impacts : list float) :
  collect_impacts rows tokens = Ok impacts → impacts ≠ [] →
  health_of (Loaded (WithImpact rows)) tokens
  = to_int (max0 (sub (of_int 100) (sum impacts))).
Proof.
  intros H Hne. unfold health_of, allergen_scorer, table_pass. rewrite H.
  by destruct impacts.
Qed.

End impacts.

(** X9: the list of impacts holds the impact of every row that a token
    matches, token after token and row after row: nothing is left out for
    a repeated token or a row matched twice.  So the impacts of two token
    lists put together are the impacts of the first followed by those of
    the second. *)
Theorem impacts_are_not_deduplicated rows (tokens : list string) :
  (∀ impacts, collect_impacts rows tokens = Ok impacts
              ↔ tokens ≫= matching_cells rows = Number <$> impacts)
  ∧ (∀ more a b, collect_impacts rows tokens = Ok a →
       collect_impacts rows more = Ok b →
       collect_impacts rows (tokens ++ more)%list = Ok (a ++ b)%list).
Proof.
  split; [apply collect_impacts_Ok|].
  intros more a b Ha%collect_impacts_Ok Hb%collect_impacts_Ok.
  apply collect_impacts_Ok. by rewrite bind_app, Ha, Hb, fmap_app.
Qed.

Lemma impacts_are_not_deduplicated_witness :
  collect_impacts [("Cane sugar", Number (of_int 30)); ("Sugar syrup", Number (of_int 20))]
                  (["sugar"] ++ ["sugar"])%list
  = Ok ([of_int 30; of_int 20] ++ [of_int 30; of_int 20])%list.
Proof.
  apply (proj2 (impacts_are_not_deduplicated
                  [("Cane sugar", Number (of_int 30)); ("Sugar syrup", Number (of_int 20))]
                  ["sugar"])); by vm_compute.
Defined.

(** X10: a matched row whose impact is missing ([nan]) brings the health
    score down to 0, whatever the other impacts are. *)
Theorem nan_impact_gives_zero rows (tokens : list string) (impacts : list float)
    (t name : string) :
  collect_impacts rows tokens = Ok impacts →
  t ∈ tokens → (name, Number NaN) ∈ rows → row_matches (lower t) name = true →
  health_of (Loaded (WithImpact rows)) tokens = Ok 0.
Proof.
  intros H Ht Hrow Hm.
  assert (NaN ∈ impacts) as Hnan.
  { apply collect_impacts_Ok in H.
    assert (Number NaN ∈ Number <$> impacts) as Hin.
    { rewrite <- H. apply list_elem_of_bind. exists t. split; [|done].
      unfold matching_cells. apply list_elem_of_fmap. exists (name, Number NaN).
      split; [done|]. apply list_elem_of_filter. split; [by apply Is_true_true | done]. }
    by apply list_elem_of_fmap in Hin as (f & [= <-] & ?). }
  rewrite (health_of_impacts _ _ _ H) by (by intros ->; apply elem_of_nil in Hnan).
  by rewrite (sum_nan _ Hnan).
Qed.

Lemma nan_impact_gives_zero_witness :
  health_of (Loaded (WithImpact [("Sugar", Number (of_int 5)); ("Salt", Number NaN)]))
            ["sugar"; "sea salt"; "salt"] = Ok 0.
Proof.
  apply (nan_impact_gives_zero
           [("Sugar", Number (of_int 5)); ("Salt", Number NaN)]
           ["sugar"; "sea salt"; "salt"] [of_int 5; NaN] "salt" "Salt").
  - by vm_compute.
  - rewrite !elem_of_cons. auto.
  - rewrite !elem_of_cons. auto.
  - by vm_compute.
Defined.

(** X11: a failure of the reference table falls back to the built-in
    score.  With a matched row whose impact is no number, the score is the
    one of the fallback and the allergens are still those of the table;
    with an unreadable file, score and allergens are those of a missing
    file. *)
Theorem table_failure_falls_back (tokens : list string) :
  (∀ rows t name txt,
     t ∈ tokens → (name, NotNumber txt) ∈ rows → row_matches (lower t) name = true →
     health_of (Loaded (WithImpact rows)) tokens = health_of Missing tokens
     ∧ allergens_of (Loaded (WithImpact rows)) tokens
       = allergens_of (Loaded (NoImpact rows.*1)) tokens)
  ∧ (∀ e, health_of (Unreadable e) tokens = health_of Missing tokens
          ∧ allergens_of (Unreadable e) tokens = allergens_of Missing tokens).
Proof.
  split; [|done].
  intros rows t name txt Ht Hrow Hm.
  destruct (collect_impacts_raise rows tokens t name txt Ht Hrow Hm) as [e He].
  split.
  - rewrite !health_of_fallback; [done..|]. simpl. by rewrite He.
  - unfold allergens_of. f_equal. rewrite !allergen_scorer_found, !table_pass_found. done.
Qed.

Lemma table_failure_falls_back_witness :
  health_of (Loaded (WithImpact [("Sugar", NotNumber "high"); ("Milk", Number (of_int 3))]))
            ["milk"; "sugar"]
  = health_of Missing ["milk"; "sugar"]
  ∧ allergens_of (Loaded (WithImpact [("Sugar", NotNumber "high"); ("Milk", Number (of_int 3))]))
                 ["milk"; "sugar"]
    = allergens_of (Loaded (NoImpact [("Sugar", NotNumber "high"); ("Milk", Number (of_int 3))].*1))
                   ["milk"; "sugar"].
Proof.
  apply (proj1 (table_failure_falls_back ["milk"; "sugar"])
           [("Sugar", NotNumber "high"); ("Milk", Number (of_int 3))]
           "sugar" "Sugar" "high").
  - rewrite !elem_of_cons. auto.
  - rewrite !elem_of_cons. auto.
  - by vm_compute.
Defined.

(** ** The score of a text *)

Section text_score.
Import TestOcr.







End text_score.



(** ** The selection loops *)

Section selection.
Import TestOcr.
Context (L : Libraries).

(** What the loop over the modes has kept after the modes [l]: nothing
    yet, or the text of the first mode that reaches the best score. *)
Lemma best_of_modes_first_max (img : Bitmap) (l : list string) :
  l ≠ [] →
  ∃ pre psm post,
    l = (pre ++ psm :: post)%list
    ∧ best_of_modes L img l = (score_text (attempt L img psm), attempt L img psm)
    ∧ (∀ p, p ∈ pre → score_text (attempt L img p) < score_text (attempt L img psm))
    ∧ (∀ p, p ∈ post → score_text (attempt L img p) ≤ score_text (attempt L img psm)).
Proof.
  induction l as [|x l IH] using rev_ind; [done|]. intros _.
  unfold best_of_modes in *. rewrite foldl_app. cbn [foldl].
  destruct l as [|y l'].
  - simpl. pose proof (score_text_nonneg (attempt L img x)).
    rewrite decide_True by lia. exists [], x, []. split; [done|]. split; [done|].
    split; intros p Hp; by apply elem_of_nil in Hp.
  - destruct IH as (pre & psm & post & Hl & -> & Hpre & Hpost); [done|].
    rewrite Hl. case_decide as Hx.
    + exists (pre ++ psm :: post)%list, x, []. split; [done|]. split; [done|].
      split; [|intros p Hp; by apply elem_of_nil in Hp].
      intros p [Hp|[->|Hp]%elem_of_cons]%elem_of_app.
      * specialize (Hpre p Hp). lia.
      * done.
      * specialize (Hpost p Hp). lia.
    + exists pre, psm, (post ++ [x])%list. split; [by rewrite <- app_assoc|].
      split; [done|]. split; [done|].
      intros p [Hp|Hp%list_elem_of_singleton]%elem_of_app; [by apply Hpost | subst p; lia].
Qed.

Lemma insert_desc_head (r b : Entry) (rest : list Entry) :
  score r < score b → insert_desc r (b :: rest) = b :: insert_desc r rest.
Proof. intros H. simpl. by rewrite decide_True. Qed.

Lemma sorted_desc_elem (l : list Entry) (x : Entry) : x ∈ sorted_desc l ↔ x ∈ l.
Proof. by rewrite sorted_desc_perm. Qed.

(** The sort is stable: the first entry with the best score comes first. *)
Lemma sorted_desc_first_max (pre post : list Entry) (b : Entry) :
  (∀ x, x ∈ pre → score x < score b) →
  (∀ x, x ∈ post → score x ≤ score b) →
  ∃ rest, sorted_desc (pre ++ b :: post)%list = b :: rest.
Proof.
  intros Hpre Hpost. induction pre as [|a pre IH].
  - simpl. destruct (sorted_desc post) as [|x rest] eqn:E; [by exists []|].
    simpl. assert (x ∈ post) as Hx by (apply sorted_desc_elem; rewrite E; left).
    specialize (Hpost x Hx). rewrite decide_False by lia. by eexists.
  - destruct IH as [rest Hrest]; [intros x Hx; apply Hpre; by right|].
    simpl. rewrite Hrest. rewrite insert_desc_head by (apply Hpre; left).
    by eexists.
Qed.

End selection.

(** X13: for one variant, the loop over the modes keeps the text of the
    first mode that reaches the best score, and the score it keeps is the
    score of that text; a mode that fails counts with the empty text. *)
Theorem best_of_modes_tie_break (L : Libraries) (img : Bitmap) (modes : list string) :
  modes ≠ [] →
  ∃ pre psm post,
    modes = (pre ++ psm :: post)%list
    ∧ (TestOcr.best_of_modes L img modes).2 = TestOcr.attempt L img psm
    ∧ (TestOcr.best_of_modes L img modes).1
      = TestOcr.score_text (TestOcr.best_of_modes L img modes).2
    ∧ (∀ p, p ∈ pre →
         TestOcr.score_text (TestOcr.attempt L img p)
         < (TestOcr.best_of_modes L img modes).1)
    ∧ (∀ p, p ∈ modes →
         TestOcr.score_text (TestOcr.attempt L img p)
         ≤ (TestOcr.best_of_modes L img modes).1).
Proof.
  intros H.
  destruct (best_of_modes_first_max L img modes H)
    as (pre & psm & post & Hl & Hb & Hpre & Hpost).
  exists pre, psm, post. rewrite Hb. simpl. split; [done|]. split; [done|].
  split; [done|]. split; [done|].
  intros p Hp. rewrite Hl in Hp.
  apply elem_of_app in Hp as [Hp|[->|Hp]%elem_of_cons].
  - specialize (Hpre p Hp). lia.
  - done.
  - by apply Hpost.
Qed.

Lemma best_of_modes_tie_break_witness :
  let L := Sample.libraries (Sample.flaky "Ingredients: milk, sugar") in
  let img := {| shape := [2; 2; 3]%nat; pixels := [] |} in
  ∃ pre psm post,
    TestOcr.psm_modes = (pre ++ psm :: post)%list
    ∧ (TestOcr.best_of_modes L img TestOcr.psm_modes).2 = TestOcr.attempt L img psm
    ∧ (TestOcr.best_of_modes L img TestOcr.psm_modes).1
      = TestOcr.score_text (TestOcr.best_of_modes L img TestOcr.psm_modes).2
    ∧ (∀ p, p ∈ pre →
         TestOcr.score_text (TestOcr.attempt L img p)
         < (TestOcr.best_of_modes L img TestOcr.psm_modes).1)
    ∧ (∀ p, p ∈ TestOcr.psm_modes →
         TestOcr.score_text (TestOcr.attempt L img p)
         ≤ (TestOcr.best_of_modes L img TestOcr.psm_modes).1).
Proof.
  intros L img. by apply (best_of_modes_tie_break L img TestOcr.psm_modes).
Defined.

(** X14: the results are sorted by score, highest first, without losing or
    adding an entry, and among entries with the best score the one that
    comes first in the list stays first. *)
Theorem sorted_desc_stable (l : list TestOcr.Entry) :
  TestOcr.sorted_desc l ≡ₚ l
  ∧ StronglySorted (λ a b, TestOcr.score b ≤ TestOcr.score a) (TestOcr.sorted_desc l)
  ∧ (∀ pre b post,
       l = (pre ++ b :: post)%list →
       (∀ x, x ∈ pre → TestOcr.score x < TestOcr.score b) →
       (∀ x, x ∈ post → TestOcr.score x ≤ TestOcr.score b) →
       head (TestOcr.sorted_desc l) = Some b).
Proof.
  split; [apply sorted_desc_perm|]. split; [apply sorted_desc_sorted|].
  intros pre b post -> Hpre Hpost.
  by destruct (sorted_desc_first_max pre post b Hpre Hpost) as [rest ->].
Qed.

Lemma sorted_desc_stable_witness :
  let e nm sc := {| TestOcr.name := nm; TestOcr.score := sc; TestOcr.text := "" |} in
  head (TestOcr.sorted_desc [e "a" 1; e "b" 3; e "c" 3; e "d" 2]) = Some (e "b" 3).
Proof.
  intros e.
  apply (proj2 (proj2 (sorted_desc_stable [e "a" 1; e "b" 3; e "c" 3; e "d" 2]))
           [e "a" 1] (e "b" 3) [e "c" 3; e "d" 2]).
  - done.
  - intros x ->%list_elem_of_singleton. simpl. lia.
  - intros x [->|[->|[]%elem_of_nil]%elem_of_cons]%elem_of_cons; simpl; lia.
Defined.

(** ** The variants *)

Section variants.
Import TestOcr.
Context (L : Libraries).

Lemma dict_set_keys {V} (k : string) (v : V) (d : dict V) :
  (dict_set k v d).*1 = if decide (k ∈ d.*1) then d.*1 else (d.*1 ++ [k])%list.
Proof.
  unfold dict in *. induction d as [|[k0 v0] d IH]; [done|]. cbn [dict_set].
  destruct (decide (k0 = k)) as [->|Hne]; rewrite !fmap_cons; cbn [fst].
  - rewrite decide_True by left. done.
  - rewrite IH. destruct (decide (k ∈ d.*1)) as [Hin|Hnin].
    + rewrite decide_True by (by right). done.
    + rewrite decide_False; [done|]. by intros [->|?]%elem_of_cons.
Qed.

Lemma dict_get_set_eq {V} (k : string) (v : V) (d : dict V) :
  dict_get k (dict_set k v d) = Some v.
Proof.
  induction d as [|[k0 v0] d IH]; simpl; [by rewrite decide_True|].
  destruct (decide (k0 = k)) as [->|Hne]; simpl.
  - by rewrite decide_True.
  - by rewrite decide_False.
Qed.

Lemma dict_get_set_ne {V} (k k' : string) (v : V) (d : dict V) :
  k ≠ k' → dict_get k' (dict_set k v d) = dict_get k' d.
Proof.
  intros Hne. induction d as [|[k0 v0] d IH]; simpl; [by rewrite decide_False|].
  destruct (decide (k0 = k)) as [->|Hne0]; simpl.
  - by rewrite !decide_False.
  - by rewrite IH.
Qed.

Lemma dict_get_Some_key {V} (k : string) (d : dict V) :
  is_Some (dict_get k d) ↔ k ∈ d.*1.
Proof.
  induction d as [|[k0 v0] d IH]; simpl.
  - split; [by intros [? [=]] | by intros ?%elem_of_nil].
  - destruct (decide (k0 = k)) as [->|Hne].
    + split; [intros _; left | by eexists].
    + rewrite IH. split; [by right | by intros [->|?]%elem_of_cons].
Qed.

Lemma to_bgr_all_keys (items : list (string * Bitmap)) (d d' : dict Bitmap) :
  (∀ kv, kv ∈ items → kv.1 ∈ d.*1) →
  to_bgr_all L items d = Ok d' → d'.*1 = d.*1.
Proof.
  revert d. induction items as [|[k0 v0] items IH]; intros d Hin; simpl.
  - by intros [= <-].
  - assert (∀ d0 : dict Bitmap, d0.*1 = d.*1 → to_bgr_all L items d0 = Ok d' → d'.*1 = d.*1)
      as Hnext.
    { intros d0 Hd0 H0. rewrite <- Hd0. apply IH; [|done].
      intros kv Hkv. rewrite Hd0. apply Hin. by right. }
    case_decide as Hshape; [|by apply Hnext].
    intros (v' & _ & Hrest)%bind_Ok. eapply Hnext; [|exact Hrest].
    rewrite dict_set_keys. rewrite decide_True; [done|].
    apply (Hin (k0, v0)). left.
Qed.

Lemma deskew_name_head (s : string) :
  "deskew_otsu_" +:+ s = String "d" ("eskew_otsu_" +:+ s).
Proof. done. Qed.

(** The names of the variants, in the order of insertion; the last one
    carries [int(ang)] for the angle [ang] that [deskew_image] returns on
    the grey image. *)
Lemma preprocess_variants_keys (img_pil : Picture) (variants : dict Bitmap) :
  preprocess_variants L img_pil = Ok variants →
  ∃ base_cv resized gray deskewed ang n,
    pil_to_cv L img_pil = Ok base_cv
    ∧ resize_for_ocr L base_cv 300 = Ok resized
    ∧ cvtColor L resized COLOR_BGR2GRAY = Ok gray
    ∧ deskew_image L gray = Ok (deskewed, ang)
    ∧ PyNum.to_int (PyNum.PFloat ang) = Ok n
    ∧ variants.*1
      = ["adaptive_thresh"; "bilateral+adapt"; "gauss+otsu"; "sharpen+otsu";
         "inv_adapt"; "deskew_otsu_" +:+ of_Z n +:+ "deg"].
Proof.
  unfold preprocess_variants. intros H.
  apply bind_Ok in H as (base_cv & Hbase & H). cbv beta zeta in H.
  apply bind_Ok in H as (resized & Hres & H). cbv beta zeta in H.
  apply bind_Ok in H as (gray & Hgray & H). cbv beta zeta in H.
  do 10 (apply bind_Ok in H as (? & _ & H); cbv beta zeta in H).
  apply bind_Ok in H as ([deskewed ang] & Hdesk & H). cbv beta iota zeta in H.
  apply bind_Ok in H as (f & _ & H). cbv beta zeta in H.
  apply bind_Ok in H as (n & Hn & H). cbv beta zeta in H.
  exists base_cv, resized, gray, deskewed, ang, n.
  do 5 (split; [done|]).
  apply to_bgr_all_keys in H; [|by intros kv; apply list_elem_of_fmap_2].
  rewrite H, !dict_set_keys, deskew_name_head. done.
Qed.

End variants.

(** X15: when the variants can be computed there are exactly six of them,
    with distinct names, in this order: the five fixed names and the name
    of the deskewed variant, [deskew_otsu_<n>deg], where [n] is [int(ang)]
    for the angle [ang] that [deskew_image] returns on the grey image of
    the resized picture: the angle cut towards zero. *)
Theorem six_variants (L : Libraries) (img_pil : Picture)
    (variants : list (string * Bitmap)) :
  TestOcr.preprocess_variants L img_pil = Ok variants →
  ∃ base_cv resized gray deskewed ang n,
    TestOcr.pil_to_cv L img_pil = Ok base_cv
    ∧ TestOcr.resize_for_ocr L base_cv 300 = Ok resized
    ∧ cvtColor L resized COLOR_BGR2GRAY = Ok gray
    ∧ TestOcr.deskew_image L gray = Ok (deskewed, ang)
    ∧ PyNum.to_int (PyNum.PFloat ang) = Ok n
    ∧ (∀ q, ang = Fin q → n = Z.quot (Qnum q) (Z.pos (Qden q)))
    ∧ variants.*1
      = ["adaptive_thresh"; "bilateral+adapt"; "gauss+otsu"; "sharpen+otsu";
         "inv_adapt"; "deskew_otsu_" +:+ of_Z n +:+ "deg"]
    ∧ length variants = 6%nat
    ∧ NoDup variants.*1.
Proof.
  intros H.
  destruct (preprocess_variants_keys L img_pil variants H)
    as (base_cv & resized & gray & deskewed & ang & n & Hb & Hr & Hg & Hd & Hn & Hk).
  exists base_cv, resized, gray, deskewed, ang, n.
  do 5 (split; [done|]). split; [|split; [done|split]].
  - intros q ->. simpl in Hn. by injection Hn as <-.
  - by rewrite <- (length_fmap fst), Hk.
  - rewrite Hk, deskew_name_head.
    repeat (apply NoDup_cons; split); [..|apply NoDup_nil_2];
      rewrite ?elem_of_cons, elem_of_nil; intuition discriminate.
Qed.

Lemma six_variants_witness :
  let L := Sample.tilted Sample.broken in
  ∃ variants,
    TestOcr.preprocess_variants L
      {| mode := "RGB"; raster := {| shape := [2; 2; 3]%nat; pixels := [] |} |}
    = Ok variants
    ∧ TestOcr.deskew_image L {| shape := [600; 600]%nat; pixels := [] |}
      = Ok ({| shape := [600; 600]%nat; pixels := [] |}, PyNum.of_int 30)
    ∧ variants.*1
      = ["adaptive_thresh"; "bilateral+adapt"; "gauss+otsu"; "sharpen+otsu";
         "inv_adapt"; "deskew_otsu_30deg"]
    ∧ length variants = 6%nat.
Proof.
  intros L.
  assert (∃ variants,
            TestOcr.preprocess_variants L
              {| mode := "RGB"; raster := {| shape := [2; 2; 3]%nat; pixels := [] |} |}
            = Ok variants) as [variants Hv].
  { eexists. by vm_compute. }
  exists variants. split; [done|].
  destruct (six_variants L _ variants Hv)
    as (base_cv & resized & gray & deskewed & ang & n
        & Hb & Hr & Hg & Hd & Hn & _ & Hk & Hlen & _).
  injection Hb as <-. vm_compute in Hr. injection Hr as <-.
  vm_compute in Hg. injection Hg as <-.
  assert (TestOcr.deskew_image L {| shape := [600; 600]%nat; pixels := [] |}
          = Ok ({| shape := [600; 600]%nat; pixels := [] |}, PyNum.of_int 30)) as Hd'.
  { unfold TestOcr.deskew_image, PyNum.of_int. simpl. by repeat f_equal. }
  split; [done|]. split; [|done].
  rewrite Hd' in Hd. injection Hd as <- <-.
  vm_compute in Hn. injection Hn as <-. exact Hk.
Defined.

(** ** The experiment as a whole *)

Section experiment_summary.
Import TestOcr.
Context (L : Libraries).

Lemma run_variants_scores (variants : dict Bitmap) :
  Forall (λ e, 0 ≤ score e) (run_variants L variants).
Proof.
  apply Forall_forall. intros e He.
  apply list_elem_of_lookup in He as [i Hi].
  assert (is_Some (variants !! i)) as [[nm img] Hv].
  { apply lookup_lt_is_Some. apply lookup_lt_Some in Hi.
    unfold run_variants in Hi. by rewrite length_fmap in Hi. }
  destruct (run_variants_lookup L variants i nm img Hv) as (e' & He' & _ & Hs).
  rewrite He' in Hi. injection Hi as ->. rewrite Hs, best_of_modes_score.
  pose proof (score_text_nonneg (attempt L img "--psm 6")). lia.
Qed.

End experiment_summary.

(** X16: when [main] gets to its results there are six of them, one for
    each variant name, sorted by score with the highest first, and no
    score is negative: a variant on which every mode fails has score 0,
    and the branch for an empty result list is never taken. *)
Theorem main_results_shape (L : Libraries) (data : bytes)
    (results : list TestOcr.Entry) :
  TestOcr.main L data = Ok results →
  length results = 6%nat
  ∧ Forall (λ e, 0 ≤ TestOcr.score e) results
  ∧ StronglySorted (λ a b, TestOcr.score b ≤ TestOcr.score a) results
  ∧ (∃ n, TestOcr.name <$> results
          ≡ₚ ["adaptive_thresh"; "bilateral+adapt"; "gauss+otsu"; "sharpen+otsu";
              "inv_adapt"; "deskew_otsu_" +:+ of_Z n +:+ "deg"])
  ∧ ∃ best, TestOcr.best_result L data = Ok (Some best).
Proof.
  intros H. unfold TestOcr.best_result. rewrite H. unfold TestOcr.main in H.
  apply bind_Ok in H as (pil & _ & H).
  apply bind_Ok in H as (variants & Hv & [= <-]).
  destruct (preprocess_variants_keys L pil variants Hv)
    as (_ & _ & _ & _ & _ & n & _ & _ & _ & _ & _ & Hn).
  assert (length (TestOcr.sorted_desc (TestOcr.run_variants L variants)) = 6%nat) as Hlen.
  { rewrite sorted_desc_perm. unfold TestOcr.run_variants.
    by rewrite length_fmap, <- (length_fmap fst), Hn. }
  split; [done|]. split; [|split; [|split]].
  - rewrite sorted_desc_perm. apply run_variants_scores.
  - apply sorted_desc_sorted.
  - exists n. by rewrite sorted_desc_perm, run_variants_names, Hn.
  - simpl. destruct (TestOcr.sorted_desc _) as [|b rest]; [done|]. by exists b.
Qed.

Lemma main_results_shape_witness :
  ∃ results,
    TestOcr.main (Sample.libraries Sample.broken) Sample.pillow_data = Ok results
    ∧ length results = 6%nat
    ∧ Forall (λ e, 0 ≤ TestOcr.score e) results.
Proof.
  eexists. split; [by vm_compute|].
  split;
    [eapply (proj1 (main_results_shape (Sample.libraries Sample.broken)
                      Sample.pillow_data _ _))
    |eapply (proj1 (proj2 (main_results_shape (Sample.libraries Sample.broken)
                      Sample.pillow_data _ _)))].
  Unshelve. all: by vm_compute.
Defined.

(** ** Deskewing and resizing *)

Section geometry.
Import TestOcr.
Context (L : Libraries).



End geometry.



(** X18: [resize_for_ocr] fails with a division by zero on an image with
    an empty side.  Otherwise the size it asks for is [int(w * scale)] by
    [int(h * scale)], where [scale = max(1.0, 2 * target_dpi / min(h, w))]
    and the quotient and the products are floats, rounded: for an image
    of 21 rows and 7 columns at 300 dpi it asks for 600 by 1799, since
    [21 * (600 / 7)] is rounded below 1800; an image of 700 by 650 keeps
    its size. *)
Theorem resize_for_ocr_request (L : Libraries) (img : Bitmap) (target_dpi : nat) :
  (∀ h w, TestOcr.shape2 img = Ok (h, w) → Nat.min h w = 0%nat →
     TestOcr.resize_for_ocr L img target_dpi = Raise "division by zero")
  ∧ (∀ out, TestOcr.resize_for_ocr L img target_dpi = Ok out →
       ∃ h w scale new_w new_h,
         TestOcr.shape2 img = Ok (h, w) ∧ Nat.min h w ≠ 0%nat
         ∧ TestOcr.scale_of target_dpi (Nat.min h w) = Ok scale
         ∧ TestOcr.scaled w scale = Ok new_w
         ∧ TestOcr.scaled h scale = Ok new_h
         ∧ resize L img (Z.to_nat new_w, Z.to_nat new_h) INTER_CUBIC = Ok out)
  ∧ (TestOcr.shape2 img = Ok (21, 7)%nat →
     TestOcr.resize_for_ocr L img 300 = resize L img (600, 1799)%nat INTER_CUBIC)
  ∧ (TestOcr.shape2 img = Ok (700, 650)%nat →
     TestOcr.resize_for_ocr L img 300 = resize L img (650, 700)%nat INTER_CUBIC).
Proof.
  unfold TestOcr.resize_for_ocr. split; [|split; [|split]].
  - intros h w -> Hm. simpl. rewrite Hm. unfold TestOcr.scale_of, true_div.
    by destruct (target_dpi * 2)%nat.
  - intros out (hw & Hs & H)%bind_Ok. destruct hw as [h w]. cbv beta iota zeta in H.
    apply bind_Ok in H as (scale & Hscale & H).
    apply bind_Ok in H as (new_w & Hw & H).
    apply bind_Ok in H as (new_h & Hh & H).
    exists h, w, scale, new_w, new_h. split; [done|]. split; [|done].
    intros Hm. rewrite Hm in Hscale. unfold TestOcr.scale_of, true_div in Hscale.
    by destruct (target_dpi * 2)%nat.
  - by intros ->.
  - by intros ->.
Qed.

Lemma resize_for_ocr_request_witness :
  let L := Sample.libraries Sample.broken in
  TestOcr.resize_for_ocr L {| shape := [0; 5; 3]%nat; pixels := [] |} 300
  = Raise "division by zero"
  ∧ TestOcr.resize_for_ocr L {| shape := [21; 7; 3]%nat; pixels := [] |} 300
    = Ok {| shape := [1799; 600; 3]%nat; pixels := [] |}.
Proof.
  intros L. split.
  - by apply (proj1 (resize_for_ocr_request L
                       {| shape := [0; 5; 3]%nat; pixels := [] |} 300) 0%nat 5%nat).
  - by rewrite (proj1 (proj2 (proj2 (resize_for_ocr_request L
                  {| shape := [21; 7; 3]%nat; pixels := [] |} 300))) eq_refl).
Defined.

(** ** The dictionary of the variants *)

(** X19: assigning to a key of the dictionary of variants makes a lookup
    of that key give the new value and leaves the other keys as they are;
    a key that is there keeps its place, a new key goes to the end, and
    no key comes to stand twice. *)
Theorem dict_set_get {V} (k : string) (v : V) (d : list (string * V)) :
  TestOcr.dict_get k (TestOcr.dict_set k v d) = Some v
  ∧ (∀ k', k ≠ k' → TestOcr.dict_get k' (TestOcr.dict_set k v d) = TestOcr.dict_get k' d)
  ∧ (k ∈ d.*1 → (TestOcr.dict_set k v d).*1 = d.*1)
  ∧ (k ∉ d.*1 → (TestOcr.dict_set k v d).*1 = (d.*1 ++ [k])%list)
  ∧ (NoDup d.*1 → NoDup (TestOcr.dict_set k v d).*1).
Proof.
  split; [apply dict_get_set_eq|]. split; [intros k'; apply dict_get_set_ne|].
  rewrite dict_set_keys. split; [|split].
  - intros H. by rewrite decide_True.
  - intros H. by rewrite decide_False.
  - intros Hd. case_decide as Hk; [done|].
    apply NoDup_app. split; [done|]. split; [|apply NoDup_singleton].
    by intros x Hx ->%list_elem_of_singleton.
Qed.

Lemma dict_set_get_witness :
  (TestOcr.dict_set "b" 7 [("a", 1); ("b", 2); ("c", 3)]).*1 = ["a"; "b"; "c"]
  ∧ TestOcr.dict_get "a" (TestOcr.dict_set "b" 7 [("a", 1); ("b", 2); ("c", 3)])
    = TestOcr.dict_get "a" [("a", 1); ("b", 2); ("c", 3)].
Proof.
  split.
  - apply (proj1 (proj2 (proj2 (dict_set_get "b" 7 [("a", 1); ("b", 2); ("c", 3)])))).
    by vm_compute; apply list_elem_of_In; simpl; auto.
  - by apply (proj1 (proj2 (dict_set_get "b" 7 [("a", 1); ("b", 2); ("c", 3)])) "a").
Defined.

(** ** The features of the training script *)

Section features.
Import TrainModel.

Lemma isdigit_lower_char (c : ascii) : isdigit (lower_char c) = isdigit c.
Proof. by destruct c as [[] [] [] [] [] [] [] []]. Qed.

Lemma count_digits_lower (s : string) : count_digits (lower s) = count_digits s.
Proof.
  induction s as [|c s IH]; [done|]. simpl. by rewrite isdigit_lower_char, IH.
Qed.

Lemma count_digits_range (s : string) :
  0 ≤ count_digits s ≤ Z.of_nat (String.length s).
Proof.
  induction s as [|c s IH]; [done|]. cbn [count_digits String.length].
  destruct (isdigit c); lia.
Qed.

Lemma any_digit_count (s : string) : any_digit s = (0 <? count_digits s).
Proof.
  induction s as [|c s IH]; [done|]. cbn [any_digit count_digits].
  pose proof (count_digits_range s). rewrite IH.
  destruct (isdigit c); simpl; [|done]. symmetry. apply Z.ltb_lt. lia.
Qed.

End features.

(** X20: [featurize_text] gives five numbers: the length of the text, the
    number of its digits (at most the length), and three 0/1 flags; the
    letter case of the text does not change them. *)
Theorem featurize_text_features (s : string) :
  (∃ digits e sugar hydro : Z,
     TrainModel.featurize_text s = [Z.of_nat (String.length s); digits; e; sugar; hydro]
     ∧ digits = TrainModel.count_digits s
     ∧ 0 ≤ digits ≤ Z.of_nat (String.length s)
     ∧ 0 ≤ e ≤ 1 ∧ 0 ≤ sugar ≤ 1 ∧ 0 ≤ hydro ≤ 1)
  ∧ TrainModel.featurize_text (lower s) = TrainModel.featurize_text s.
Proof.
  split.
  - unfold TrainModel.featurize_text. rewrite length_lower, count_digits_lower.
    do 4 eexists. split; [done|]. split; [done|].
    split; [apply count_digits_range|].
    unfold TrainModel.int_of_bool.
    repeat split; repeat match goal with |- context [if ?b then _ else _] => destruct b end; lia.
  - unfold TrainModel.featurize_text. by rewrite lower_idemp.
Qed.

(** X21: the label that [main] gives a row without a score is a function
    of two features, the sugar flag and whether there is a digit: 50, plus
    20 for sugar, plus 15 for a digit; so it is one of 50, 65, 70, 85. *)
Theorem default_score_from_features (s : string) :
  TrainModel.default_score s
  = 50 + 20 * nth 3 (TrainModel.featurize_text s) 0
       + 15 * (if 0 <? nth 1 (TrainModel.featurize_text s) 0 then 1 else 0)
  ∧ TrainModel.default_score s ∈ [50; 65; 70; 85].
Proof.
  assert (TrainModel.default_score s
          = 50 + 20 * nth 3 (TrainModel.featurize_text s) 0
               + 15 * (if 0 <? nth 1 (TrainModel.featurize_text s) 0 then 1 else 0)) as H.
  { unfold TrainModel.default_score, TrainModel.featurize_text. cbn [nth].
    rewrite count_digits_lower, any_digit_count. unfold TrainModel.int_of_bool.
    by destruct (0 <? TrainModel.count_digits s). }
  split; [exact H|]. rewrite H. unfold TrainModel.featurize_text. cbn [nth].
  unfold TrainModel.int_of_bool. rewrite !elem_of_cons.
  destruct (contains "sugar" (lower s)), (0 <? _); simpl; auto.
Qed.

(** ** The handler from end to end *)

Section end_to_end.

Lemma health_of_no_negative (csv : CsvFile) (tokens : list string) :
  Spec.no_negative_impact csv →
  ∃ h, health_of csv tokens = Ok h ∧ 0 ≤ h ≤ 100.
Proof.
  intros Hcsv. unfold health_of, allergen_scorer.
  destruct (table_pass csv tokens) as [found [sc|]] eqn:Hpass;
    cbn -[fallback_score to_int max0 sub sum of_int].
  - assert ((table_pass csv tokens).2 = Some sc) as Hsc by (by rewrite Hpass).
    apply table_pass_score in Hsc as (rows & impacts & -> & Hc & ->).
    apply to_int_max0_sub_100, sum_not_negative.
    by eapply collect_impacts_not_negative.
  - apply fallback_score_range.
Qed.

End end_to_end.

(** X22: when there is an upload, the image loads and is preprocessed, the
    engine reads a text, and the reference table has no negative impact
    (or there is no table), the handler answers with status 200 and a
    record that holds the OCR text as read, an ingredients text that is a
    part of it, at most 200 tokens, sorted allergens and a health score
    from 0 to 100. *)
Theorem predict_success (L : Libraries) (files : gmap string App.FileStorage)
    (csv : CsvFile) (file : App.FileStorage) (th : Bitmap) (ocr : string) :
  App.pick_file files = Some file →
  (img_bgr ← App.load_image L (App.content file); App.preprocess L img_bgr) = Ok th →
  App.run_ocr L th = Ok ocr →
  Spec.no_negative_impact csv →
  ∃ p, App.predict L files csv = Success p
       ∧ status (App.predict L files csv) = 200
       ∧ ocr_text p = ocr
       ∧ (∃ pre post, ocr = pre +:+ ingredients_text p +:+ post)
       ∧ (length (tokens p) ≤ 200)%nat
       ∧ StronglySorted String.le (allergens p)
       ∧ 0 ≤ health_score p ≤ 100.
Proof.
  intros Hf Hth Hocr Hcsv.
  destruct (health_of_no_negative csv (tokenize (ingredients_text_of ocr)) Hcsv)
    as (h & Hh & Hr).
  assert (App.predict L files csv
          = Success {| ocr_text := ocr;
                       ingredients_text := ingredients_text_of ocr;
                       tokens := exposed_tokens (tokenize (ingredients_text_of ocr));
                       allergens := allergens_of csv (tokenize (ingredients_text_of ocr));
                       health_score := h |}) as ->.
  { unfold App.predict. rewrite Hf, Hth, Hocr. unfold respond. by rewrite Hh. }
  eexists. split; [done|]. simpl. split; [done|]. split; [done|].
  split; [|split; [|split; [|done]]].
  - unfold ingredients_text_of. destruct (truthy _) eqn:E; [apply scan_markers_part|].
    exists "", "". change (ocr = ocr +:+ ""). by rewrite string_app_nil_r.
  - unfold exposed_tokens. rewrite length_take. lia.
  - apply sorted_set_sorted.
Qed.

Lemma predict_success_witness :
  let csv := Loaded (WithImpact [("Salt", Number (Sample.tenths 2));
                                 ("Sugar", Number (Sample.tenths 499));
                                 ("Sunflower oil", Number (Sample.tenths 7))]) in
  ∃ p, App.predict (Sample.libraries (Sample.reading "salt, sugar, salt, oil"))
         (Sample.upload Sample.codec_data) csv
       = Success p
       ∧ health_score p = 48.
Proof.
  intros csv.
  destruct (predict_success (Sample.libraries (Sample.reading "salt, sugar, salt, oil"))
              (Sample.upload Sample.codec_data) csv
              {| App.filename := "label.jpg"; App.content := Sample.codec_data |}
              {| shape := [4; 4]%nat; pixels := [] |}
              "salt, sugar, salt, oil")
    as (p & Hp & _).
  - by vm_compute.
  - by vm_compute.
  - by vm_compute.
  - simpl. by repeat constructor.
  - exists p. split; [done|].
    assert (Success p = Success {| ocr_text := "salt, sugar, salt, oil";
                                   ingredients_text := "salt, sugar, salt, oil";
                                   tokens := ["salt"; "sugar"; "salt"; "oil"];
                                   allergens := ["Salt"; "Sugar"; "Sunflower oil"];
                                   health_score := 48 |}) as [= ->];
      [|done].
    rewrite <- Hp. by vm_compute.
Defined.

(** X23: large negative impacts overflow.  When the impacts that are
    collected add up to minus infinity, [100 - sum(impacts)] is plus
    infinity, [int] raises on it, and the request ends with the
    server-error response, status 500. *)
Theorem infinite_score_is_server_error rows (tokens : list string)
    (impacts : list float) :
  collect_impacts rows tokens = Ok impacts → impacts ≠ [] →
  sum impacts = S754_infinity true →
  health_of (Loaded (WithImpact rows)) tokens
  = Raise "cannot convert float infinity to integer"
  ∧ ∀ ocr, tokenize (ingredients_text_of ocr) = tokens →
      respond (Loaded (WithImpact rows)) ocr
      = ServerError "cannot convert float infinity to integer"
      ∧ status (respond (Loaded (WithImpact rows)) ocr) = 500.
Proof.
  intros H Hne Hsum.
  assert (health_of (Loaded (WithImpact rows)) tokens
          = Raise "cannot convert float infinity to integer") as Hh.
  { rewrite (health_of_impacts _ _ _ H Hne), Hsum. by vm_compute. }
  split; [exact Hh|]. intros ocr <-. unfold respond. by rewrite Hh.
Qed.

Lemma infinite_score_is_server_error_witness :
  let w := of_int (- 10 ^ 308) in
  (∃ m e, w = S754_finite true m e)
  ∧ respond (Loaded (WithImpact [("Cane sugar", Number w)])) "sugar, cane sugar"
    = ServerError "cannot convert float infinity to integer".
Proof.
  intros w. split; [do 2 eexists; by vm_compute|].
  assert (collect_impacts [("Cane sugar", Number w)] ["sugar"; "cane sugar"] = Ok [w; w])
    as Hc by (by vm_compute).
  assert ([w; w] ≠ []) as Hne by done.
  assert (sum [w; w] = S754_infinity true) as Hsum by (by vm_compute).
  assert (tokenize (ingredients_text_of "sugar, cane sugar") = ["sugar"; "cane sugar"])
    as Htok by (by vm_compute).
  exact (proj1 (proj2 (infinite_score_is_server_error _ _ _ Hc Hne Hsum) _ Htok)).
Defined.
